(** * The interactive category theory book

    Shallow embeddings of the logic of the viewer and of its simulators.
    The first modules hold definitions only, one module per source file:
    the book structure, the book reducer, the page form, the choice of
    simulator, the hint panel, the naturality visualizer and the
    local-storage collections.  [MorphismComposer] embeds the selection
    logic of [src/components/simulators/MorphismComposer.tsx]: the
    [Morphism] record, the seed catalog [initialMorphisms], the pure
    helpers [canCompose] and [compose], and the two event handlers
    [handleSelectMorphism] and [clearSelection], read as transitions on
    the React state of the component, with its results.  The modules
    named [...Facts] hold the results about the first modules.

    Strings are [string]s (the bytes of their UTF-8 encoding); the only
    string operations the handlers use are strict equality and
    concatenation.  JavaScript arrays are lists. *)

From Stdlib Require Import String Ascii List Bool Arith ZArith Lia.
From Stdlib Require Import Decimal DecimalString DecimalZ.
From Stdlib Require QArith Qminmax.
Import ListNotations.


(** * The book: structure, reducer and the simulator of a page

    [data/bookStructure.ts], the reducer of [contexts/BookContext.tsx],
    the submit handler of [components/viewer/PageNavigation.tsx] and the
    choice of simulator in [components/enhancements/SimulatorTab.tsx].
    Page numbers are JavaScript numbers that only ever hold integers
    (the initial page, [parseInt] results, table entries, steps of one);
    they are taken in [Z]. *)

Module BookStructure.

Open Scope string_scope.
Open Scope list_scope.
Open Scope Z_scope.

(** [interface Section]; the fields of the two interfaces share their
    names in the source, told apart here by a prefix. *)
Record BookSection : Set := mkSection {
  secId : string;
  secNumber : string;
  secTitle : string;
  secStartPage : Z;
  secEndPage : Z;
  concepts : list string
}.

(** [interface Chapter]. *)
Record Chapter : Set := mkChapter {
  chId : string;
  chNumber : string;
  chTitle : string;
  chStartPage : Z;
  chEndPage : Z;
  sections : list BookSection
}.

(** [interface BookStructure]. *)
Record Book : Set := mkBook {
  title : string;
  author : string;
  totalPages : Z;
  chapters : list Chapter
}.

Definition bookStructure : Book :=
  {| title := "A Gentle Introduction to Category Theory";
     author := "Maarten M. Fokkinga";
     totalPages := 80;
     chapters :=
     [
      {| chId := "chapter-0"; chNumber := "0";
         chTitle := "Introduction";
         chStartPage := 5; chEndPage := 8;
         sections :=
         [
           {| secId := "sec-0-1"; secNumber := "0.1";
              secTitle := "Aim";
              secStartPage := 5; secEndPage := 5;
              concepts :=
                ["motivation"; "goals"] |};
           {| secId := "sec-0-2"; secNumber := "0.2";
              secTitle := "Acknowledgements";
              secStartPage := 5; secEndPage := 5;
              concepts :=
                [] |};
           {| secId := "sec-0-3"; secNumber := "0.3";
              secTitle := "Why category theory?";
              secStartPage := 5; secEndPage := 6;
              concepts :=
                ["abstraction"; "uniformity"; "structure"] |};
           {| secId := "sec-0-4"; secNumber := "0.4";
              secTitle := "Notational conventions";
              secStartPage := 6; secEndPage := 8;
              concepts :=
                ["notation"; "conventions"; "symbols"] |} ] |};
      {| chId := "chapter-1"; chNumber := "1";
         chTitle := "The main concepts";
         chStartPage := 9; chEndPage := 32;
         sections :=
         [
           {| secId := "sec-1a"; secNumber := "1a";
              secTitle := "Categories";
              secStartPage := 9; secEndPage := 14;
              concepts :=
                ["category"; "object"; "morphism"; "composition"; "identity"; "associativity"] |};
           {| secId := "sec-1b"; secNumber := "1b";
              secTitle := "Functors";
              secStartPage := 15; secEndPage := 20;
              concepts :=
                ["functor"; "endofunctor"; "type preservation"; "composition preservation"] |};
           {| secId := "sec-1c"; secNumber := "1c";
              secTitle := "Naturality";
              secStartPage := 21; secEndPage := 27;
              concepts :=
                ["natural transformation"; "naturality condition"; "polymorphism"] |};
           {| secId := "sec-1d"; secNumber := "1d";
              secTitle := "Adjunctions";
              secStartPage := 28; secEndPage := 30;
              concepts :=
                ["adjunction"; "adjoint functors"; "unit"; "counit"] |};
           {| secId := "sec-1e"; secNumber := "1e";
              secTitle := "Duality";
              secStartPage := 31; secEndPage := 32;
              concepts :=
                ["dual category"; "opposite category"; "duality principle"] |} ] |};
      {| chId := "chapter-2"; chNumber := "2";
         chTitle := "Constructions in categories";
         chStartPage := 33; chEndPage := 60;
         sections :=
         [
           {| secId := "sec-2a"; secNumber := "2a";
              secTitle := "Iso, epic, and monic";
              secStartPage := 33; secEndPage := 35;
              concepts :=
                ["isomorphism"; "epimorphism"; "monomorphism"; "invertibility"] |};
           {| secId := "sec-2b"; secNumber := "2b";
              secTitle := "Initiality and finality";
              secStartPage := 36; secEndPage := 39;
              concepts :=
                ["initial object"; "terminal object"; "unique morphism"] |};
           {| secId := "sec-2c"; secNumber := "2c";
              secTitle := "Products and Sums";
              secStartPage := 40; secEndPage := 44;
              concepts :=
                ["product"; "coproduct"; "sum"; "projection"; "injection"; "universal property"] |};
           {| secId := "sec-2d"; secNumber := "2d";
              secTitle := "Coequalisers";
              secStartPage := 45; secEndPage := 48;
              concepts :=
                ["coequaliser"; "equaliser"; "quotient"] |};
           {| secId := "sec-2e"; secNumber := "2e";
              secTitle := "Colimits";
              secStartPage := 49; secEndPage := 60;
              concepts :=
                ["colimit"; "limit"; "diagram"; "cone"; "cocone"] |} ] |};
      {| chId := "appendix-a"; chNumber := "A";
         chTitle := "More on adjointness";
         chStartPage := 61; chEndPage := 80;
         sections :=
         [
           {| secId := "sec-a"; secNumber := "A";
              secTitle := "More on adjointness";
              secStartPage := 61; secEndPage := 80;
              concepts :=
                ["adjunction properties"; "adjunction examples"; "Galois connection"] |} ] |} ] |}.

(** [getChapterByPage]: the first chapter whose page range holds the
    page. *)
Definition getChapterByPage (pageNumber : Z) : option Chapter :=
  find (fun ch => (pageNumber >=? chStartPage ch)
                  && (pageNumber <=? chEndPage ch))
       (chapters bookStructure).

(** [getSectionByPage]: within that chapter, the first section whose
    page range holds the page. *)
Definition getSectionByPage (pageNumber : Z) : option BookSection :=
  match getChapterByPage pageNumber with
  | None => None
  | Some chapter =>
      find (fun sec => (pageNumber >=? secStartPage sec)
                       && (pageNumber <=? secEndPage sec))
           (sections chapter)
  end.

(** [getConceptsForPage]: [section?.concepts ?? []]. *)
Definition getConceptsForPage (pageNumber : Z) : list string :=
  match getSectionByPage pageNumber with
  | Some section => concepts section
  | None => []
  end.

(** [isFrontMatter]. *)
Definition isFrontMatter (pageNumber : Z) : bool := pageNumber <? 5.

(** [String(pageNumber)] for an integer below [10^21] in absolute value:
    its decimal digits, after a minus sign when negative. *)
Definition pageString (pageNumber : Z) : string :=
  NilZero.string_of_int (Z.to_int pageNumber).

(** [s.padStart(2, '0')]. *)
Definition padStart2 (s : string) : string :=
  match String.length s with
  | O => "00" ++ s
  | S O => "0" ++ s
  | _ => s
  end.

(** [getPageImagePath]; [baseUrl] is [import.meta.env.BASE_URL], which
    [||] replaces by ["/"] when it is undefined ([None]) or empty. *)
Definition getPageImagePath (baseUrl : option string) (pageNumber : Z)
  : string :=
  let paddedNum := padStart2 (pageString pageNumber) in
  let base :=
    match baseUrl with
    | None => "/"
    | Some b => if (b =? "")%string then "/" else b
    end in
  base ++ "pages/Category_Theory-" ++ paddedNum ++ ".png".

(** The entries [getTableOfContents] builds. *)
Record TocChild : Set := mkTocChild {
  childId : string;
  childLabel : string;
  childPage : Z
}.

Record TocItem : Set := mkTocItem {
  itemId : string;
  itemLabel : string;
  itemPage : Z;
  children : list TocChild
}.

(** [getTableOfContents]. *)
Definition getTableOfContents : list TocItem :=
  map (fun chapter =>
         {| itemId := chId chapter;
            itemLabel := chNumber chapter ++ ". " ++ chTitle chapter;
            itemPage := chStartPage chapter;
            children :=
              map (fun section =>
                     {| childId := secId section;
                        childLabel :=
                          secNumber section ++ " " ++ secTitle section;
                        childPage := secStartPage section |})
                  (sections chapter) |})
      (chapters bookStructure).

(** Reading a page number back from its padded digits. *)
Definition readPage (digits : string) : option Z :=
  option_map Z.of_int (NilZero.int_of_string digits).

End BookStructure.

Module BookContext.

Import BookStructure.

Open Scope Z_scope.

(** [BookState['activeTab']]. *)
Inductive Tab : Set := examples | simulator | applications | learning.

(** The zoom factor is a double that takes fractional values ([0.25]
    steps, [0.1] steps of the wheel); its arithmetic is a parameter of
    the model: the numbers, the four literals and the four operations
    the reducer applies to them. *)
Record Doubles : Type := mkDoubles {
  double : Type;
  dOne : double;
  dHalf : double;
  dThree : double;
  dQuarter : double;
  dAdd : double -> double -> double;
  dSub : double -> double -> double;
  dMax : double -> double -> double;
  dMin : double -> double -> double
}.

(** [interface BookState]. *)
Record BookState (D : Doubles) : Type := mkBookState {
  currentPage : Z;
  totalPages : Z;
  zoom : double D;
  sidebarOpen : bool;
  enhancementPanelOpen : bool;
  enhancementPanelFullscreen : bool;
  activeTab : Tab
}.

Arguments mkBookState {D}.
Arguments currentPage {D}.
Arguments totalPages {D}.
Arguments zoom {D}.
Arguments sidebarOpen {D}.
Arguments enhancementPanelOpen {D}.
Arguments enhancementPanelFullscreen {D}.
Arguments activeTab {D}.

(** [type BookAction]. *)
Inductive BookAction (D : Doubles) : Type :=
| SET_PAGE (payload : Z)
| NEXT_PAGE
| PREV_PAGE
| SET_ZOOM (payload : double D)
| ZOOM_IN
| ZOOM_OUT
| RESET_ZOOM
| TOGGLE_SIDEBAR
| TOGGLE_ENHANCEMENT_PANEL
| TOGGLE_ENHANCEMENT_PANEL_FULLSCREEN
| SET_ACTIVE_TAB (payload : Tab).

Arguments SET_PAGE {D}.
Arguments NEXT_PAGE {D}.
Arguments PREV_PAGE {D}.
Arguments SET_ZOOM {D}.
Arguments ZOOM_IN {D}.
Arguments ZOOM_OUT {D}.
Arguments RESET_ZOOM {D}.
Arguments TOGGLE_SIDEBAR {D}.
Arguments TOGGLE_ENHANCEMENT_PANEL {D}.
Arguments TOGGLE_ENHANCEMENT_PANEL_FULLSCREEN {D}.
Arguments SET_ACTIVE_TAB {D}.

Definition initialState (D : Doubles) : BookState D :=
  {| currentPage := 1;
     totalPages := BookStructure.totalPages bookStructure;
     zoom := dOne D;
     sidebarOpen := true;
     enhancementPanelOpen := true;
     enhancementPanelFullscreen := false;
     activeTab := examples |}.

(** [bookReducer]; every case copies the state and replaces one field. *)
Definition bookReducer {D : Doubles} (state : BookState D)
  (action : BookAction D) : BookState D :=
  match action with
  | SET_PAGE payload =>
      {| currentPage := Z.max 1 (Z.min payload (totalPages state));
         totalPages := totalPages state;
         zoom := zoom state;
         sidebarOpen := sidebarOpen state;
         enhancementPanelOpen := enhancementPanelOpen state;
         enhancementPanelFullscreen := enhancementPanelFullscreen state;
         activeTab := activeTab state |}
  | NEXT_PAGE =>
      {| currentPage := Z.min (currentPage state + 1) (totalPages state);
         totalPages := totalPages state;
         zoom := zoom state;
         sidebarOpen := sidebarOpen state;
         enhancementPanelOpen := enhancementPanelOpen state;
         enhancementPanelFullscreen := enhancementPanelFullscreen state;
         activeTab := activeTab state |}
  | PREV_PAGE =>
      {| currentPage := Z.max (currentPage state - 1) 1;
         totalPages := totalPages state;
         zoom := zoom state;
         sidebarOpen := sidebarOpen state;
         enhancementPanelOpen := enhancementPanelOpen state;
         enhancementPanelFullscreen := enhancementPanelFullscreen state;
         activeTab := activeTab state |}
  | SET_ZOOM payload =>
      {| currentPage := currentPage state;
         totalPages := totalPages state;
         zoom := dMax D (dHalf D) (dMin D payload (dThree D));
         sidebarOpen := sidebarOpen state;
         enhancementPanelOpen := enhancementPanelOpen state;
         enhancementPanelFullscreen := enhancementPanelFullscreen state;
         activeTab := activeTab state |}
  | ZOOM_IN =>
      {| currentPage := currentPage state;
         totalPages := totalPages state;
         zoom := dMin D (dAdd D (zoom state) (dQuarter D)) (dThree D);
         sidebarOpen := sidebarOpen state;
         enhancementPanelOpen := enhancementPanelOpen state;
         enhancementPanelFullscreen := enhancementPanelFullscreen state;
         activeTab := activeTab state |}
  | ZOOM_OUT =>
      {| currentPage := currentPage state;
         totalPages := totalPages state;
         zoom := dMax D (dSub D (zoom state) (dQuarter D)) (dHalf D);
         sidebarOpen := sidebarOpen state;
         enhancementPanelOpen := enhancementPanelOpen state;
         enhancementPanelFullscreen := enhancementPanelFullscreen state;
         activeTab := activeTab state |}
  | RESET_ZOOM =>
      {| currentPage := currentPage state;
         totalPages := totalPages state;
         zoom := dOne D;
         sidebarOpen := sidebarOpen state;
         enhancementPanelOpen := enhancementPanelOpen state;
         enhancementPanelFullscreen := enhancementPanelFullscreen state;
         activeTab := activeTab state |}
  | TOGGLE_SIDEBAR =>
      {| currentPage := currentPage state;
         totalPages := totalPages state;
         zoom := zoom state;
         sidebarOpen := negb (sidebarOpen state);
         enhancementPanelOpen := enhancementPanelOpen state;
         enhancementPanelFullscreen := enhancementPanelFullscreen state;
         activeTab := activeTab state |}
  | TOGGLE_ENHANCEMENT_PANEL =>
      {| currentPage := currentPage state;
         totalPages := totalPages state;
         zoom := zoom state;
         sidebarOpen := sidebarOpen state;
         enhancementPanelOpen := negb (enhancementPanelOpen state);
         enhancementPanelFullscreen := enhancementPanelFullscreen state;
         activeTab := activeTab state |}
  | TOGGLE_ENHANCEMENT_PANEL_FULLSCREEN =>
      {| currentPage := currentPage state;
         totalPages := totalPages state;
         zoom := zoom state;
         sidebarOpen := sidebarOpen state;
         enhancementPanelOpen := enhancementPanelOpen state;
         enhancementPanelFullscreen :=
           negb (enhancementPanelFullscreen state);
         activeTab := activeTab state |}
  | SET_ACTIVE_TAB payload =>
      {| currentPage := currentPage state;
         totalPages := totalPages state;
         zoom := zoom state;
         sidebarOpen := sidebarOpen state;
         enhancementPanelOpen := enhancementPanelOpen state;
         enhancementPanelFullscreen := enhancementPanelFullscreen state;
         activeTab := payload |}
  end.

(** The state after a sequence of dispatches. *)
Definition dispatchAll {D : Doubles} (state : BookState D)
  (actions : list (BookAction D)) : BookState D :=
  fold_left bookReducer actions state.

(** The derived values the provider adds to the context. *)
Definition currentChapter {D : Doubles} (state : BookState D)
  : option Chapter :=
  getChapterByPage (currentPage state).

Definition currentSection {D : Doubles} (state : BookState D)
  : option BookSection :=
  getSectionByPage (currentPage state).

(** Exact rational arithmetic, an instance of the double operations used
    to run the reducer on examples. *)
Definition exactDoubles : Doubles :=
  {| double := QArith_base.Q;
     dOne := QArith_base.Qmake 1 1;
     dHalf := QArith_base.Qmake 1 2;
     dThree := QArith_base.Qmake 3 1;
     dQuarter := QArith_base.Qmake 1 4;
     dAdd := QArith_base.Qplus;
     dSub := QArith_base.Qminus;
     dMax := Qminmax.Qmax;
     dMin := Qminmax.Qmin |}.

End BookContext.

Module PageNavigation.

Import BookStructure BookContext.

Open Scope string_scope.
Open Scope Z_scope.

(** The two hooks of the page form. *)
Record NavState : Set := mkNavState {
  inputValue : string;
  isEditing : bool
}.

(** [handleSubmit]; [parsed] is the value of [parseInt(inputValue, 10)],
    [None] when it is [NaN].  [goToPage] dispatches [SET_PAGE]. *)
Definition handleSubmit {D : Doubles} (parsed : option Z)
  (book : BookState D) (nav : NavState) : BookState D * NavState :=
  let book' :=
    match parsed with
    | Some page =>
        if (page >=? 1) && (page <=? totalPages book)
        then bookReducer book (SET_PAGE page)
        else book
    | None => book
    end in
  (book', {| inputValue := ""; isEditing := false |}).

(** [handleInputFocus]. *)
Definition handleInputFocus {D : Doubles} (book : BookState D)
  (nav : NavState) : NavState :=
  {| inputValue := pageString (currentPage book); isEditing := true |}.

(** [handleInputBlur]. *)
Definition handleInputBlur (nav : NavState) : NavState :=
  {| inputValue := ""; isEditing := false |}.

(** The [disabled] attributes of the Previous and Next buttons. *)
Definition prevDisabled {D : Doubles} (book : BookState D) : bool :=
  currentPage book <=? 1.

Definition nextDisabled {D : Doubles} (book : BookState D) : bool :=
  currentPage book >=? totalPages book.

End PageNavigation.

Module SimulatorTab.

Import BookStructure BookContext.

Open Scope string_scope.

(** [type SimulatorType]. *)
Inductive SimulatorType : Set :=
| category_builder
| morphism_composer
| natural_transformation
| functor_mapper
| product_builder
| diagram_chaser.

(** [interface SimulatorConfig]. *)
Record SimulatorConfig : Set := mkSimulatorConfig {
  type : SimulatorType;
  title : string;
  description : string
}.

(** [getSimulatorForSection]: the [switch] on the number of the current
    section, with its default for no section and for any other number. *)
Definition getSimulatorForSection (currentSection : option BookSection)
  : SimulatorConfig :=
  match currentSection with
  | None =>
      {| type := category_builder;
         title := "Category Builder";
         description :=
           "Build and explore categories with objects and morphisms" |}
  | Some section =>
      let number := secNumber section in
      if number =? "1a" then
        {| type := category_builder;
           title := "Category Builder";
           description :=
             "Create objects, add morphisms, and verify category axioms" |}
      else if number =? "1b" then
        {| type := functor_mapper;
           title := "Functor Mapper";
           description := "Visualize how functors map between categories" |}
      else if number =? "1c" then
        {| type := natural_transformation;
           title := "Natural Transformation Visualizer";
           description :=
             "Explore naturality squares and component morphisms" |}
      else if (number =? "1d") || (number =? "1e") then
        {| type := category_builder;
           title := "Category Builder";
           description :=
             "Explore adjunctions and duality through category construction" |}
      else if number =? "2a" then
        {| type := morphism_composer;
           title := "Morphism Composer";
           description :=
             "Compose morphisms and explore iso, epic, and monic properties" |}
      else if number =? "2b" then
        {| type := category_builder;
           title := "Category Builder";
           description := "Explore initial and terminal objects" |}
      else if number =? "2c" then
        {| type := product_builder;
           title := "Product/Coproduct Builder";
           description :=
             "Construct products and coproducts with universal properties" |}
      else if (number =? "2d") || (number =? "2e") then
        {| type := diagram_chaser;
           title := "Diagram Chaser";
           description :=
             "Chase through commutative diagrams and verify limits" |}
      else
        {| type := category_builder;
           title := "Category Builder";
           description :=
             "Build and explore categories with objects and morphisms" |}
  end.

(** The component [renderSimulator] mounts; for the diagram chaser it is
    the product builder under a note. *)
Inductive Mounted : Set :=
| CategoryBuilderView
| NaturalTransformationVisualizerView
| MorphismComposerView
| ProductBuilderView
| FunctorMapperView
| NoteAndProductBuilderView.

(** [renderSimulator]. *)
Definition renderSimulator (simulator : SimulatorConfig) : Mounted :=
  match type simulator with
  | category_builder => CategoryBuilderView
  | natural_transformation => NaturalTransformationVisualizerView
  | morphism_composer => MorphismComposerView
  | product_builder => ProductBuilderView
  | functor_mapper => FunctorMapperView
  | diagram_chaser => NoteAndProductBuilderView
  end.

(** What the tab mounts for a state of the book: the provider derives
    the current section from the current page. *)
Definition mountedFor {D : Doubles} (book : BookState D) : Mounted :=
  renderSimulator (getSimulatorForSection (currentSection book)).

(** The same, by page. *)
Definition mountedAtPage (pageNumber : Z) : Mounted :=
  renderSimulator (getSimulatorForSection (getSectionByPage pageNumber)).

End SimulatorTab.

Module SimulatorHint.

Section Hint.

(** The type of the steps; the handlers only use their number. *)
Variable Step : Type.

(** The props the logic reads. *)
Record Props : Type := mkProps {
  steps : list Step;
  tips : list string;
  compact : bool
}.

(** The two hooks. *)
Record HintState : Set := mkHintState {
  isExpanded : bool;
  currentStep : nat
}.

(** [useState(!compact)] and [useState(0)]. *)
Definition initialHint (props : Props) : HintState :=
  {| isExpanded := negb (compact props); currentStep := 0 |}.

(** [nextStep]: the comparison is with [steps.length - 1], which is [-1]
    for no steps. *)
Definition nextStep (props : Props) (st : HintState) : HintState :=
  if (Z.of_nat (currentStep st) <? Z.of_nat (length (steps props)) - 1)%Z
  then {| isExpanded := isExpanded st; currentStep := currentStep st + 1 |}
  else st.

(** [prevStep]. *)
Definition prevStep (st : HintState) : HintState :=
  if 0 <? currentStep st
  then {| isExpanded := isExpanded st; currentStep := currentStep st - 1 |}
  else st.

(** What the user can do: the two navigation buttons, a step dot, the
    Help button of the collapsed hint, Minimize. *)
Inductive Event : Set :=
| ClickNext
| ClickPrev
| ClickDot (idx : nat)
| ClickHelp
| ClickMinimize.

Definition handle (props : Props) (st : HintState) (e : Event) : HintState :=
  match e with
  | ClickNext => nextStep props st
  | ClickPrev => prevStep st
  | ClickDot idx => {| isExpanded := isExpanded st; currentStep := idx |}
  | ClickHelp => {| isExpanded := true; currentStep := currentStep st |}
  | ClickMinimize => {| isExpanded := false; currentStep := currentStep st |}
  end.

(** A dot exists for every index of [steps] and for no other. *)
Definition offered (props : Props) (e : Event) : bool :=
  match e with
  | ClickDot idx => idx <? length (steps props)
  | _ => true
  end.

(** What is on screen: the step area, present when there are steps,
    with the step shown, its number and the [disabled] attributes of
    Previous and Next; the tips; the Minimize button. *)
Record StepArea : Type := mkStepArea {
  shownStep : Step;
  stepNumber : nat;
  prevDisabled : bool;
  nextDisabled : bool
}.

Record Panel : Type := mkPanel {
  stepArea : option StepArea;
  showsTips : bool;
  showsMinimize : bool
}.

Inductive View : Type :=
| HelpButton
| HintPanel (panel : Panel).

(** The render: the collapsed button, or the panel.  With steps, the
    panel reads [steps[currentStep].title]; when that entry is
    [undefined] the read throws a [TypeError]: [None]. *)
Definition render (props : Props) (st : HintState) : option View :=
  if compact props && negb (isExpanded st) then Some HelpButton
  else
    let panel (area : option StepArea) :=
      {| stepArea := area;
         showsTips := 0 <? length (tips props);
         showsMinimize := compact props |} in
    if 0 <? length (steps props) then
      match nth_error (steps props) (currentStep st) with
      | Some step =>
          Some (HintPanel
                  (panel
                     (Some
                        {| shownStep := step;
                           stepNumber := currentStep st + 1;
                           prevDisabled := currentStep st =? 0;
                           nextDisabled :=
                             (Z.of_nat (currentStep st)
                              =? Z.of_nat (length (steps props)) - 1)%Z
                        |})))
      | None => None
      end
    else Some (HintPanel (panel None)).

(** The states a mounted hint can be in. *)
Inductive reachableHint (props : Props) : HintState -> Prop :=
| hint_init : reachableHint props (initialHint props)
| hint_step st e :
    reachableHint props st ->
    offered props e = true ->
    reachableHint props (handle props st e).

(** What the reachable states keep: the counter is on an existing step,
    and on 0 when there is none. *)
Definition stepInRange (props : Props) (st : HintState) : Prop :=
  (length (steps props) = 0 -> currentStep st = 0) /\
  (0 < length (steps props) -> currentStep st < length (steps props)).

End Hint.

Arguments steps {Step}.
Arguments tips {Step}.
Arguments compact {Step}.
Arguments initialHint {Step}.
Arguments nextStep {Step}.
Arguments handle {Step}.
Arguments offered {Step}.
Arguments render {Step}.
Arguments reachableHint {Step}.
Arguments stepInRange {Step}.
Arguments shownStep {Step}.
Arguments stepNumber {Step}.
Arguments prevDisabled {Step}.
Arguments nextDisabled {Step}.
Arguments stepArea {Step}.
Arguments showsTips {Step}.
Arguments showsMinimize {Step}.
Arguments HelpButton {Step}.
Arguments HintPanel {Step}.

(** The double quote, for the texts that contain one. *)
Definition dquote : string := String (Ascii.ascii_of_nat 34) EmptyString.

(** The hint of the Morphism Composer: its four steps, by their titles,
    and its four tips; it is not compact. *)
Definition composerStepTitles : list string :=
  [ "Select First Morphism"%string; "Select Second Morphism"%string;
    "View Composition Result"%string;
    "Experiment with Associativity"%string ].

Definition composerTips : list string :=
  [ ("Composition is read right-to-left: g∘f means " ++ dquote
       ++ "first f, then g" ++ dquote)%string;
    "Two morphisms can only compose if their types match: target of first = source of second"%string;
    "The dashed line k: A→C could be the composition g∘f"%string;
    "In programming, this is like function composition: compose(g, f) or g(f(x))"%string ].

Definition composerHintProps : Props string :=
  {| steps := composerStepTitles;
     tips := composerTips;
     compact := false |}.

End SimulatorHint.

Module NaturalTransformationVisualizer.

Open Scope string_scope.
Open Scope nat_scope.

(** [interface NTObject], [NTMorphism], [Preset]. *)
Record NTObject : Set := mkNTObject {
  objId : string;
  objLabel : string
}.

Record NTMorphism : Set := mkNTMorphism {
  morId : string;
  morLabel : string;
  morSource : string;
  morTarget : string
}.

Record Component : Set := mkComponent {
  objectId : string;
  label : string
}.

Record Preset : Set := mkPreset {
  name : string;
  description : string;
  sourceObjects : list NTObject;
  sourceMorphism : NTMorphism;
  components : list Component
}.

Definition presets : list Preset :=
  [ {| name := "List reverse";
       description := "rev: Seq → Seq reverses a sequence";
       sourceObjects :=
         [ {| objId := "A"; objLabel := "A" |};
           {| objId := "B"; objLabel := "B" |} ];
       sourceMorphism :=
         {| morId := "f"; morLabel := "f";
            morSource := "A"; morTarget := "B" |};
       components :=
         [ {| objectId := "A"; label := "rev" |};
           {| objectId := "B"; label := "rev" |} ] |};
    {| name := "List singleton";
       description := "η: Id → List wraps element in list";
       sourceObjects :=
         [ {| objId := "A"; objLabel := "A" |};
           {| objId := "B"; objLabel := "B" |} ];
       sourceMorphism :=
         {| morId := "f"; morLabel := "f";
            morSource := "A"; morTarget := "B" |};
       components :=
         [ {| objectId := "A"; label := "η" |};
           {| objectId := "B"; label := "η" |} ] |};
    {| name := "Flatten (join)";
       description := "μ: List∘List → List flattens nested lists";
       sourceObjects :=
         [ {| objId := "A"; objLabel := "A" |};
           {| objId := "B"; objLabel := "B" |} ];
       sourceMorphism :=
         {| morId := "f"; morLabel := "f";
            morSource := "A"; morTarget := "B" |};
       components :=
         [ {| objectId := "A"; label := "μ" |};
           {| objectId := "B"; label := "μ" |} ] |} ].

(** ['top' | 'bottom' | 'both']. *)
Inductive Path : Set := top | bottom | both.

(** The two callbacks [handleAnimate] hands to [setTimeout]: the first
    highlights the bottom path, the second highlights both and ends the
    animation. *)
Inductive Callback : Set := ToBottom | Finish.

(** The hooks of the component, the time in milliseconds, and the
    pending timers, each with the time from which it may run, in the
    order in which they will run: by that time, then by creation. *)
Record State : Set := mkState {
  activePreset : nat;
  highlightPath : Path;
  animating : bool;
  showHint : bool;
  clock : nat;
  timers : list (nat * Callback)
}.

Definition initialState : State :=
  {| activePreset := 0;
     highlightPath := both;
     animating := false;
     showHint := true;
     clock := 0;
     timers := [] |}.

(** [setTimeout(cb, delay)] at time [now]: the new timer runs after
    every pending timer that is due no later than it. *)
Fixpoint setTimeout (due : nat) (cb : Callback)
  (pending : list (nat * Callback)) : list (nat * Callback) :=
  match pending with
  | [] => [(due, cb)]
  | (d, c) :: rest =>
      if d <=? due then (d, c) :: setTimeout due cb rest
      else (due, cb) :: (d, c) :: rest
  end.

(** [handleAnimate]. *)
Definition handleAnimate (s : State) : State :=
  if animating s then s
  else
    {| activePreset := activePreset s;
       highlightPath := top;
       animating := true;
       showHint := showHint s;
       clock := clock s;
       timers :=
         setTimeout (clock s + 2400) Finish
           (setTimeout (clock s + 1200) ToBottom (timers s)) |}.

(** The body of a timer callback. *)
Definition runCallback (cb : Callback) (s : State) : State :=
  match cb with
  | ToBottom =>
      {| activePreset := activePreset s;
         highlightPath := bottom;
         animating := animating s;
         showHint := showHint s;
         clock := clock s;
         timers := timers s |}
  | Finish =>
      {| activePreset := activePreset s;
         highlightPath := both;
         animating := false;
         showHint := showHint s;
         clock := clock s;
         timers := timers s |}
  end.

(** What can happen: the clicks, a choice in the preset list, time
    passing, and the first pending timer running once it is due (a timer
    may run late, never early). *)
Inductive Event : Set :=
| ClickAnimate
| ClickPath (p : Path)
| SelectPreset (i : nat)
| DismissHint
| ShowHelp
| Elapse (ms : nat)
| TimerFires.

Definition handle (s : State) (e : Event) : State :=
  match e with
  | ClickAnimate => handleAnimate s
  | ClickPath p =>
      {| activePreset := activePreset s;
         highlightPath := p;
         animating := animating s;
         showHint := showHint s;
         clock := clock s;
         timers := timers s |}
  | SelectPreset i =>
      {| activePreset := i;
         highlightPath := highlightPath s;
         animating := animating s;
         showHint := showHint s;
         clock := clock s;
         timers := timers s |}
  | DismissHint =>
      {| activePreset := activePreset s;
         highlightPath := highlightPath s;
         animating := animating s;
         showHint := false;
         clock := clock s;
         timers := timers s |}
  | ShowHelp =>
      {| activePreset := activePreset s;
         highlightPath := highlightPath s;
         animating := animating s;
         showHint := true;
         clock := clock s;
         timers := timers s |}
  | Elapse ms =>
      {| activePreset := activePreset s;
         highlightPath := highlightPath s;
         animating := animating s;
         showHint := showHint s;
         clock := clock s + ms;
         timers := timers s |}
  | TimerFires =>
      match timers s with
      | (due, cb) :: rest =>
          if due <=? clock s then
            runCallback cb
              {| activePreset := activePreset s;
                 highlightPath := highlightPath s;
                 animating := animating s;
                 showHint := showHint s;
                 clock := clock s;
                 timers := rest |}
          else s
      | [] => s
      end
  end.

(** The preset list offers the indices of [presets]. *)
Definition offered (e : Event) : bool :=
  match e with
  | SelectPreset i => i <? length presets
  | _ => true
  end.

Definition run (s : State) (events : list Event) : State :=
  fold_left handle events s.

Inductive reachable : State -> Prop :=
| reach_init : reachable initialState
| reach_step s e :
    reachable s -> offered e = true -> reachable (handle s e).

(** [const preset = presets[activePreset]]; the render reads
    [preset.name], a [TypeError] when the entry is [undefined]. *)
Definition preset (s : State) : option Preset :=
  nth_error presets (activePreset s).

(** The COMMUTES badge is drawn when both paths are highlighted. *)
Definition showsCommutes (s : State) : bool :=
  match highlightPath s with
  | both => true
  | _ => false
  end.

(** The Animate button carries [disabled={animating}]. *)
Definition animateDisabled (s : State) : bool := animating s.

(** What the reachable states keep: no animation and no timer, or an
    animation started at some past time [t0] with its second timer, or
    both its timers, pending. *)
Definition animationInvariant (s : State) : Prop :=
  (animating s = false /\ timers s = []) \/
  (animating s = true /\
   exists t0,
     t0 <= clock s /\
     (timers s = [(t0 + 2400, Finish)] \/
      timers s = [(t0 + 1200, ToBottom); (t0 + 2400, Finish)])).

End NaturalTransformationVisualizer.

Module LocalStorage.

Import BookStructure.

Open Scope string_scope.
Open Scope list_scope.

(** ** [useLocalStorageSet]: the stored array and its updaters *)

Section Collection.

(** The items are strings or numbers, compared by [includes] and [!==];
    [eqb] is that comparison. *)
Variable T : Type.
Variable eqb : T -> T -> bool.

(** [prev.includes(item)]. *)
Definition includes (prev : list T) (item : T) : bool :=
  existsb (fun i => eqb i item) prev.

(** The updater of [add]. *)
Definition add (item : T) (prev : list T) : list T :=
  if includes prev item then prev else prev ++ [item].

(** The updater of [remove]. *)
Definition remove (item : T) (prev : list T) : list T :=
  filter (fun i => negb (eqb i item)) prev.

(** [new Set(items)]: the distinct items in the order of their first
    occurrence. *)
Definition toSet (items : list T) : list T :=
  fold_left (fun set item => add item set) items [].

(** [pagesViewed.size]. *)
Definition size (items : list T) : nat := length (toSet items).

(** What the three callbacks of the hook do to the array; [clearItems]
    stores the initial [[]]. *)
Inductive SetAction : Type :=
| AddItem (item : T)
| RemoveItem (item : T)
| ClearItems.

Definition applySet (prev : list T) (a : SetAction) : list T :=
  match a with
  | AddItem item => add item prev
  | RemoveItem item => remove item prev
  | ClearItems => []
  end.

End Collection.

Arguments AddItem {T}.
Arguments RemoveItem {T}.
Arguments ClearItems {T}.
Arguments applySet {T}.
Arguments includes {T}.
Arguments add {T}.
Arguments remove {T}.
Arguments toSet {T}.
Arguments size {T}.

(** ** [useBookmarks] *)

Record Bookmark : Set := mkBookmark {
  pageNumber : Z;
  label : string;
  createdAt : string
}.

(** The updater of [addBookmark]; [now] is [new Date().toISOString()],
    [label] is [None] when the argument is left out, with the default
    [`Page ${pageNumber}`]. *)
Definition addBookmark (now : string) (page : Z) (label : option string)
  (prev : list Bookmark) : list Bookmark :=
  if existsb (fun b => (pageNumber b =? page)%Z) prev then prev
  else
    prev ++
    [ {| pageNumber := page;
         label :=
           match label with
           | Some l => l
           | None => "Page " ++ pageString page
           end;
         createdAt := now |} ].

(** The updater of [removeBookmark]. *)
Definition removeBookmark (page : Z) (prev : list Bookmark)
  : list Bookmark :=
  filter (fun b => negb (pageNumber b =? page)%Z) prev.

(** [isBookmarked]. *)
Definition isBookmarked (bookmarks : list Bookmark) (page : Z) : bool :=
  existsb (fun b => (pageNumber b =? page)%Z) bookmarks.

(** What the user does with bookmarks; [clearBookmarks] stores [[]]. *)
Inductive BookmarkAction : Set :=
| AddBookmark (now : string) (page : Z) (label : option string)
| RemoveBookmark (page : Z)
| ClearBookmarks.

Definition applyBookmark (prev : list Bookmark) (a : BookmarkAction)
  : list Bookmark :=
  match a with
  | AddBookmark now page label => addBookmark now page label prev
  | RemoveBookmark page => removeBookmark page prev
  | ClearBookmarks => []
  end.

(** ** [useNotes] *)

Record Note : Set := mkNote {
  id : string;
  notePage : Z;
  content : string;
  noteCreatedAt : string;
  updatedAt : string
}.

(** [`note-${Date.now()}`]; [nowMs] is the reading of [Date.now()], an
    integer number of milliseconds. *)
Definition noteId (nowMs : Z) : string := "note-" ++ pageString nowMs.

(** The updater of [addNote]; [now] is [new Date().toISOString()]. *)
Definition addNote (nowMs : Z) (now : string) (page : Z) (text : string)
  (prev : list Note) : list Note :=
  prev ++
  [ {| id := noteId nowMs;
       notePage := page;
       content := text;
       noteCreatedAt := now;
       updatedAt := now |} ].

(** The updater of [updateNote]; the time is read anew for each note
    that is rewritten: [now k] is the reading at index [k]. *)
Fixpoint updateNoteFrom (k : nat) (now : nat -> string) (noteId : string)
  (text : string) (prev : list Note) : list Note :=
  match prev with
  | [] => []
  | note :: rest =>
      (if (id note =? noteId)%string
       then {| id := id note;
               notePage := notePage note;
               content := text;
               noteCreatedAt := noteCreatedAt note;
               updatedAt := now k |}
       else note)
      :: updateNoteFrom (S k) now noteId text rest
  end.

Definition updateNote (now : nat -> string) (noteId : string)
  (text : string) (prev : list Note) : list Note :=
  updateNoteFrom 0 now noteId text prev.

(** The updater of [deleteNote]. *)
Definition deleteNote (noteId : string) (prev : list Note) : list Note :=
  filter (fun note => negb (id note =? noteId)%string) prev.

(** [getNotesForPage]. *)
Definition getNotesForPage (notes : list Note) (page : Z) : list Note :=
  filter (fun note => (notePage note =? page)%Z) notes.

End LocalStorage.

Module ProgressContext.

Import BookStructure BookContext LocalStorage.

(** The two stored values the provider updates by itself: the array
    behind [pagesViewed] and [lastPage]. *)
Record Progress : Set := mkProgress {
  viewedItems : list Z;
  lastPage : Z
}.

(** The effect that runs after the first render and after every render
    in which [currentPage] has changed. *)
Definition markCurrent (page : Z) (p : Progress) : Progress :=
  {| viewedItems := add Z.eqb page (viewedItems p); lastPage := page |}.

(** [clearProgress], on these two values. *)
Definition clearProgress (p : Progress) : Progress :=
  {| viewedItems := []; lastPage := 1 |}.

(** [viewedCount]. *)
Definition viewedCount (p : Progress) : nat := size Z.eqb (viewedItems p).

(** The book and the progress together. *)
Inductive AppEvent (D : Doubles) : Type :=
| Dispatch (action : BookAction D)
| ClearProgress.

Arguments Dispatch {D}.
Arguments ClearProgress {D}.

(** The first render with what the storage held, then the effect. *)
Definition mount (D : Doubles) (stored : Progress)
  : BookState D * Progress :=
  (BookContext.initialState D,
   markCurrent (currentPage (BookContext.initialState D)) stored).

Definition appStep {D : Doubles} (app : BookState D * Progress)
  (e : AppEvent D) : BookState D * Progress :=
  match e with
  | Dispatch action =>
      let book' := bookReducer (fst app) action in
      (book',
       if (currentPage book' =? currentPage (fst app))%Z then snd app
       else markCurrent (currentPage book') (snd app))
  | ClearProgress => (fst app, clearProgress (snd app))
  end.

Definition appRun {D : Doubles} (app : BookState D * Progress)
  (events : list (AppEvent D)) : BookState D * Progress :=
  fold_left appStep events app.

Definition isDispatch {D : Doubles} (e : AppEvent D) : bool :=
  match e with
  | Dispatch _ => true
  | ClearProgress => false
  end.

(** What every state of the book and its progress keeps, from a storage
    that held pages of the book without repetition: the page is in the
    book, and the viewed pages are pages of the book, each once. *)
Definition progressInvariant {D : Doubles} (app : BookState D * Progress)
  : Prop :=
  (1 <= currentPage (fst app) <= totalPages (fst app))%Z /\
  NoDup (viewedItems (snd app)) /\
  forall p, In p (viewedItems (snd app)) ->
            (1 <= p <= totalPages (fst app))%Z.

(** An empty storage: the defaults of the two hooks. *)
Definition freshProgress : Progress :=
  {| viewedItems := []; lastPage := 1 |}.

End ProgressContext.

Module MorphismComposer.

Open Scope string_scope.
Open Scope list_scope.

(** ** Data *)

(** [interface Morphism { id; label; source; target }]. *)
Record Morphism : Set := mkMorphism {
  id : string;
  label : string;
  source : string;
  target : string
}.

(** The seed catalog of the component. *)
Definition initialMorphisms : list Morphism :=
  [ {| id := "f"; label := "f"; source := "A"; target := "B" |};
    {| id := "g"; label := "g"; source := "B"; target := "C" |};
    {| id := "h"; label := "h"; source := "C"; target := "D" |};
    {| id := "k"; label := "k"; source := "A"; target := "C" |} ].

(** The hooks of the component that the handlers read or write:
    [morphisms], [selected], [composition], [error] and
    [isNewComposition].  ([showHint] is written by neither handler and
    read by neither, so it is left out.) *)
Record State : Type := mkState {
  morphisms : list Morphism;
  selected : list string;
  composition : option Morphism;
  error : option string;
  isNewComposition : bool
}.

(** The state of the first render, [useState] initialisers.  The catalog
    is a parameter so that the results below hold for every seed. *)
Definition initState (seed : list Morphism) : State :=
  {| morphisms := seed;
     selected := [];
     composition := None;
     error := None;
     isNewComposition := false |}.

Definition initialState : State := initState initialMorphisms.

(** ** Pure helpers *)

(** [m1.target === m2.source]. *)
Definition canCompose (m1 m2 : Morphism) : bool :=
  (target m1 =? source m2)%string.

(** [compose]: [null] when the pair cannot be composed, otherwise the
    morphism built by the two template literals. *)
Definition compose (m1 m2 : Morphism) : option Morphism :=
  if negb (canCompose m1 m2) then None
  else Some {| id := (id m2 ++ "∘" ++ id m1)%string;
               label := (label m2 ++ "∘" ++ label m1)%string;
               source := source m1;
               target := target m2 |}.

(** [selected.includes(morphismId)]. *)
Definition includes (l : list string) (x : string) : bool :=
  existsb (fun i => (i =? x)%string) l.

(** [morphisms.find(m => m.id === key)]; [None] is [undefined]. *)
Definition findById (ms : list Morphism) (key : string) : option Morphism :=
  find (fun m => (id m =? key)%string) ms.

(** The message of the failure branch. *)
Definition cannotComposeMessage (m1 m2 : Morphism) : string :=
  ("Cannot compose: " ++ label m1 ++ " and " ++ label m2
     ++ " are not composable (target ≠ source)")%string.

(** ** Event handlers *)

(** [handleSelectMorphism].  Every [setX] call queues the next value of
    one hook; the handler reads the hooks of the current render, so the
    next state is the current one with the last value queued for each
    hook.  [setError(null)] and [setIsNewComposition(false)] come first
    and are overridden in the branches that set them again.

    The list patterns stand for the tests on [selected.length]: [[]] is
    length 0, [[sel0]] is length 1 with [selected[0] = sel0], anything
    longer is the final [else].

    With one id selected the two lookups carry a non-null assertion; when
    either yields [undefined], [compose] reads a property of [undefined]
    and the handler throws a [TypeError]: that outcome is [None]. *)
Definition handleSelectMorphism (s : State) (morphismId : string)
  : option State :=
  if includes (selected s) morphismId then
    (* Deselect *)
    Some {| morphisms := morphisms s;
            selected :=
              filter (fun i => negb (i =? morphismId)%string) (selected s);
            composition := None;
            error := None;
            isNewComposition := false |}
  else
    match selected s with
    | [] =>
        (* First selection *)
        Some {| morphisms := morphisms s;
                selected := [morphismId];
                composition := None;
                error := None;
                isNewComposition := false |}
    | [sel0] =>
        (* Second selection - try to compose *)
        match findById (morphisms s) sel0,
              findById (morphisms s) morphismId with
        | Some m1, Some m2 =>
            match compose m1 m2 with
            | Some comp =>
                Some {| morphisms := morphisms s;
                        selected := [sel0; morphismId];
                        composition := Some comp;
                        error := None;
                        isNewComposition := true |}
            | None =>
                match compose m2 m1 with
                | Some comp =>
                    Some {| morphisms := morphisms s;
                            selected := [morphismId; sel0];
                            composition := Some comp;
                            error := None;
                            isNewComposition := true |}
                | None =>
                    Some {| morphisms := morphisms s;
                            selected := [morphismId];
                            composition := composition s;
                            error := Some (cannotComposeMessage m1 m2);
                            isNewComposition := false |}
                end
            end
        | _, _ => None
        end
    | _ :: _ :: _ =>
        (* Reset and start new selection *)
        Some {| morphisms := morphisms s;
                selected := [morphismId];
                composition := None;
                error := None;
                isNewComposition := false |}
    end.

(** [clearSelection]. *)
Definition clearSelection (s : State) : State :=
  {| morphisms := morphisms s;
     selected := [];
     composition := None;
     error := None;
     isNewComposition := false |}.

(** ** Runs of the component *)

(** What the presentation layer can ask for: a click on a morphism, or
    the Clear button. *)
Inductive Action : Set :=
| SelectMorphism (morphismId : string)
| ClearSelection.

Definition step (s : State) (a : Action) : option State :=
  match a with
  | SelectMorphism z => handleSelectMorphism s z
  | ClearSelection => Some (clearSelection s)
  end.

Fixpoint run (s : State) (acts : list Action) : option State :=
  match acts with
  | [] => Some s
  | a :: rest =>
      match step s a with
      | Some s' => run s' rest
      | None => None
      end
  end.

(** The ids the diagram and the buttons offer: those of the catalog. *)
Definition catalogIds (ms : list Morphism) : list string := map id ms.

Definition offered (ms : list Morphism) (a : Action) : bool :=
  match a with
  | SelectMorphism z => includes (catalogIds ms) z
  | ClearSelection => true
  end.

(** States reachable from the first render of a component seeded with
    [seed], by clicks on catalog morphisms and on Clear. *)
Inductive reachable (seed : list Morphism) : State -> Prop :=
| reach_init : reachable seed (initState seed)
| reach_select s z s' :
    reachable seed s ->
    In z (catalogIds seed) ->
    handleSelectMorphism s z = Some s' ->
    reachable seed s'
| reach_clear s :
    reachable seed s ->
    reachable seed (clearSelection s).

(** The two referenced morphisms of a selection compose in at least one
    order. *)
Definition composableEitherOrder (m1 m2 : Morphism) : bool :=
  canCompose m1 m2 || canCompose m2 m1.

(** ** The invariant of the reachable states *)

(** What holds of every state a run can reach: the catalog is the seed;
    the selection has at most two ids; with fewer than two there is no
    composite; with two, they differ, both are catalog ids, the morphisms
    they name compose in the order held, and the composite is theirs. *)
Definition selectionInvariant (seed : list Morphism) (s : State) : Prop :=
  morphisms s = seed /\
  match selected s with
  | [] => composition s = None
  | [x] => In x (catalogIds seed) /\ composition s = None
  | [x; y] =>
      x <> y /\
      exists m1 m2,
        findById seed x = Some m1 /\
        findById seed y = Some m2 /\
        canCompose m1 m2 = true /\
        composition s = compose m1 m2
  | _ :: _ :: _ :: _ => False
  end.

(** [needle] occurs in [hay]. *)
Definition occursIn (needle hay : string) : Prop :=
  exists before after, hay = (before ++ needle ++ after)%string.

(** The reset-on-third-click law read literally: from a reachable state
    with two ids selected, a click on any catalog id [z] leaves exactly
    [[z]] selected, no composite and no error. *)
Definition resetOnThirdClickAsStated (seed : list Morphism) : Prop :=
  forall s z,
    reachable seed s ->
    length (selected s) = 2 ->
    In z (catalogIds seed) ->
    exists s',
      handleSelectMorphism s z = Some s' /\
      selected s' = [z] /\
      composition s' = None /\
      error s' = None.

(** ** What the component renders *)

(** [composition != null], as the JSX tests it. *)
Definition hasComposition (s : State) : bool :=
  match composition s with
  | Some _ => true
  | None => false
  end.

(** [{error && ...}]: the error panel; [null] and the empty string are
    falsy. *)
Definition showsError (s : State) : bool :=
  match error s with
  | Some e => negb (e =? "")%string
  | None => false
  end.

(** [{composition && ...}]: the result panel. *)
Definition showsResult (s : State) : bool := hasComposition s.

(** [{selected.length === 1 && !composition && ...}]: the hint that asks
    for a second morphism. *)
Definition showsSelectionHint (s : State) : bool :=
  Nat.eqb (length (selected s)) 1 && negb (hasComposition s).

(** The result panel reads "first apply [selected[0]], then apply
    [selected[1]]"; an index out of range is [undefined], here [None]. *)
Definition appliedFirst (s : State) : option string := nth_error (selected s) 0.
Definition appliedSecond (s : State) : option string := nth_error (selected s) 1.

(** [objectPositions], with its keys in insertion order. *)
Definition objectPositions : list (string * (Z * Z)) :=
  [ ("A", (60, 100)%Z); ("B", (160, 100)%Z);
    ("C", (260, 100)%Z); ("D", (360, 100)%Z) ].

(** [objectPositions[key]] for a key that is an own property of the
    table or names no property at all ([undefined], here [None]). *)
Definition positionOf (key : string) : option (Z * Z) :=
  option_map snd (find (fun kv => (fst kv =? key)%string) objectPositions).

(** The guard of both drawing loops, [source && target]: both ends of the
    arrow have a position. *)
Definition hasPositions (m : Morphism) : bool :=
  match positionOf (source m), positionOf (target m) with
  | Some _, Some _ => true
  | _, _ => false
  end.

(** What the reachable states keep of the hooks that only the display
    reads: [isNewComposition] is set exactly with a composite, and an
    error is the report of the failed pair whose second morphism is now
    the sole selection. *)
Definition displayInvariant (seed : list Morphism) (s : State) : Prop :=
  isNewComposition s = hasComposition s /\
  match error s with
  | None => True
  | Some msg =>
      exists x y m1 m2,
        selected s = [y] /\
        x <> y /\
        findById seed x = Some m1 /\
        findById seed y = Some m2 /\
        canCompose m1 m2 = false /\
        canCompose m2 m1 = false /\
        msg = cannotComposeMessage m1 m2
  end.

(** ** Sample states of the seed catalog *)

Definition f : Morphism :=
  {| id := "f"; label := "f"; source := "A"; target := "B" |}.
Definition g : Morphism :=
  {| id := "g"; label := "g"; source := "B"; target := "C" |}.
Definition h : Morphism :=
  {| id := "h"; label := "h"; source := "C"; target := "D" |}.

(** After a click on [f]. *)
Definition stateF : State :=
  {| morphisms := initialMorphisms;
     selected := ["f"];
     composition := None;
     error := None;
     isNewComposition := false |}.

(** After a click on [f] and one on [g]. *)
Definition stateFG : State :=
  {| morphisms := initialMorphisms;
     selected := ["f"; "g"];
     composition :=
       Some {| id := "g∘f"; label := "g∘f"; source := "A"; target := "C" |};
     error := None;
     isNewComposition := true |}.

(** After a click on [f] and one on [h], which compose in neither
    order. *)
Definition stateFthenH : State :=
  {| morphisms := initialMorphisms;
     selected := ["h"];
     composition := None;
     error :=
       Some "Cannot compose: f and h are not composable (target ≠ source)";
     isNewComposition := false |}.

(** ** Proof steps used more than once *)

Ltac eqb_cases x y :=
  destruct (String.eqb_spec x y); simpl in *; try congruence.

(** ** The scenarios of the catalog [f, g, h, k] *)

Example scenario_A :
  option_map (fun s => (selected s, composition s, error s))
    (run initialState [SelectMorphism "f"; SelectMorphism "g"])
  = Some (["f"; "g"],
          Some {| id := "g∘f"; label := "g∘f"; source := "A"; target := "C" |},
          None).
Proof. reflexivity. Qed.

Example scenario_B :
  run initialState [SelectMorphism "g"; SelectMorphism "f"]
  = run initialState [SelectMorphism "f"; SelectMorphism "g"].
Proof. reflexivity. Qed.

Example scenario_C :
  option_map (fun s => (selected s, composition s, error s))
    (run initialState [SelectMorphism "f"; SelectMorphism "h"])
  = Some (["h"], None,
          Some "Cannot compose: f and h are not composable (target ≠ source)").
Proof. reflexivity. Qed.

Example scenario_D :
  option_map (fun s => (selected s, composition s, error s))
    (run initialState
       [SelectMorphism "f"; SelectMorphism "h"; SelectMorphism "g"])
  = Some (["g"; "h"],
          Some {| id := "h∘g"; label := "h∘g"; source := "B"; target := "D" |},
          None).
Proof. reflexivity. Qed.

(** ** Basic facts *)

Lemma includes_In (l : list string) (x : string) :
  includes l x = true <-> In x l.
Proof.
  unfold includes. rewrite existsb_exists. split.
  - intros [i [Hi Heq]]. apply String.eqb_eq in Heq. now subst.
  - intros Hx. exists x. split; [assumption | apply String.eqb_refl].
Qed.

Lemma includes_not_In (l : list string) (x : string) :
  includes l x = false <-> ~ In x l.
Proof.
  rewrite <- includes_In. destruct (includes l x); split; congruence.
Qed.

Lemma findById_Some (ms : list Morphism) (key : string) (m : Morphism) :
  findById ms key = Some m -> In m ms /\ id m = key.
Proof.
  unfold findById. intros H. apply find_some in H.
  destruct H as [Hin Heq]. apply String.eqb_eq in Heq. now split.
Qed.

Lemma findById_catalog (ms : list Morphism) (key : string) (m : Morphism) :
  findById ms key = Some m -> In key (catalogIds ms).
Proof.
  intros H. apply findById_Some in H. destruct H as [Hin <-].
  unfold catalogIds. now apply in_map.
Qed.

Lemma catalog_findById (ms : list Morphism) (key : string) :
  In key (catalogIds ms) -> exists m, findById ms key = Some m.
Proof.
  unfold catalogIds, findById. induction ms as [|m ms IH]; simpl.
  - intros [].
  - intros [Hm | Hin].
    + exists m. subst key. now rewrite String.eqb_refl.
    + destruct (String.eqb_spec (id m) key) as [_|_].
      * now exists m.
      * now apply IH.
Qed.

Lemma canCompose_true (m1 m2 : Morphism) :
  canCompose m1 m2 = true <-> target m1 = source m2.
Proof. unfold canCompose. apply String.eqb_eq. Qed.

Lemma canCompose_false (m1 m2 : Morphism) :
  canCompose m1 m2 = false <-> target m1 <> source m2.
Proof. unfold canCompose. apply String.eqb_neq. Qed.

Lemma compose_can (m1 m2 : Morphism) :
  canCompose m1 m2 = true ->
  compose m1 m2 =
    Some {| id := (id m2 ++ "∘" ++ id m1)%string;
            label := (label m2 ++ "∘" ++ label m1)%string;
            source := source m1;
            target := target m2 |}.
Proof. unfold compose. now intros ->. Qed.

Lemma compose_cannot (m1 m2 : Morphism) :
  canCompose m1 m2 = false -> compose m1 m2 = None.
Proof. unfold compose. now intros ->. Qed.

Lemma compose_Some_can (m1 m2 c : Morphism) :
  compose m1 m2 = Some c -> canCompose m1 m2 = true.
Proof.
  unfold compose. destruct (canCompose m1 m2); simpl; congruence.
Qed.

(** ** The invariant holds along every run *)

Lemma invariant_init (seed : list Morphism) :
  selectionInvariant seed (initState seed).
Proof. split; reflexivity. Qed.

Lemma invariant_clear (seed : list Morphism) (s : State) :
  morphisms s = seed -> selectionInvariant seed (clearSelection s).
Proof. intros H. split; [exact H | reflexivity]. Qed.

Lemma invariant_select (seed : list Morphism) (s s' : State) (z : string) :
  selectionInvariant seed s ->
  In z (catalogIds seed) ->
  handleSelectMorphism s z = Some s' ->
  selectionInvariant seed s'.
Proof.
  intros [Hcat Hsel] Hz Hstep. unfold handleSelectMorphism in Hstep.
  destruct (selected s) as [|x [|y [|w rest]]]; simpl in Hstep.
  - injection Hstep as <-. split; simpl; auto.
  - destruct Hsel as [Hx Hnone].
    eqb_cases x z.
    + injection Hstep as <-. split; simpl; auto.
    + rewrite Hcat in Hstep.
      destruct (findById seed x) as [m1|] eqn:F1; [|discriminate].
      destruct (findById seed z) as [m2|] eqn:F2; [|discriminate].
      destruct (compose m1 m2) as [c|] eqn:C12.
      * injection Hstep as <-. split; simpl; auto.
        split; [assumption|]. exists m1, m2.
        repeat split; auto. now apply compose_Some_can with c.
      * destruct (compose m2 m1) as [c|] eqn:C21; injection Hstep as <-.
        -- split; simpl; auto.
           split; [congruence|]. exists m2, m1.
           repeat split; auto. now apply compose_Some_can with c.
        -- split; simpl; auto.
  - destruct Hsel as [Hxy [m1 [m2 [F1 [F2 _]]]]].
    apply findById_catalog in F1, F2.
    eqb_cases x z; eqb_cases y z;
      injection Hstep as <-; split; simpl; auto.
  - contradiction.
Qed.

Lemma reachable_invariant (seed : list Morphism) (s : State) :
  reachable seed s -> selectionInvariant seed s.
Proof.
  induction 1 as [|s z s' _ IH Hz Hstep|s _ IH].
  - apply invariant_init.
  - exact (invariant_select seed s s' z IH Hz Hstep).
  - apply invariant_clear, IH.
Qed.

(** A click on a catalog id never throws in a state that satisfies the
    invariant. *)
Lemma select_returns (seed : list Morphism) (s : State) (z : string) :
  selectionInvariant seed s ->
  In z (catalogIds seed) ->
  exists s', handleSelectMorphism s z = Some s'.
Proof.
  intros [Hcat Hsel] Hz. unfold handleSelectMorphism.
  destruct (includes (selected s) z); [eauto|].
  destruct (selected s) as [|x [|y rest]]; [eauto| |eauto].
  destruct Hsel as [Hx _]. rewrite Hcat.
  destruct (catalog_findById seed x Hx) as [m1 ->].
  destruct (catalog_findById seed z Hz) as [m2 ->].
  destruct (compose m1 m2); [eauto|].
  destruct (compose m2 m1); eauto.
Qed.

Lemma offered_In (seed : list Morphism) (z : string) :
  offered seed (SelectMorphism z) = true <-> In z (catalogIds seed).
Proof. apply includes_In. Qed.

(** Every sequence of offered actions runs to the end, in a reachable
    state. *)
Lemma run_reachable (seed : list Morphism) (acts : list Action) :
  forall s,
    reachable seed s ->
    forallb (offered seed) acts = true ->
    exists s', run s acts = Some s' /\ reachable seed s'.
Proof.
  induction acts as [|a acts IH]; intros s Hs Hacts; simpl in *.
  - eauto.
  - apply andb_true_iff in Hacts. destruct Hacts as [Ha Hrest].
    destruct a as [z|]; simpl.
    + apply offered_In in Ha.
      destruct (select_returns seed s z (reachable_invariant seed s Hs) Ha)
        as [s1 H1].
      rewrite H1. apply IH; [|assumption].
      now apply reach_select with s z.
    + apply IH; [|assumption]. now apply reach_clear.
Qed.

Lemma run_frame (acts : list Action) :
  forall s s', run s acts = Some s' -> morphisms s' = morphisms s.
Proof.
  induction acts as [|a acts IH]; intros s s' H; simpl in H.
  - now injection H as <-.
  - destruct (step s a) as [s1|] eqn:Hstep; [|discriminate].
    rewrite (IH s1 s' H). clear IH H.
    destruct a as [z|]; simpl in Hstep.
    + unfold handleSelectMorphism in Hstep.
      repeat match type of Hstep with
             | context [if ?b then _ else _] => destruct b
             | context [match ?x with _ => _ end] => destruct x
             end;
        try discriminate; now injection Hstep as <-.
    + now injection Hstep as <-.
Qed.

(** ** The sample states are reachable *)

Lemma reachable_stateF : reachable initialMorphisms stateF.
Proof.
  apply reach_select with (initState initialMorphisms) "f".
  - apply reach_init.
  - simpl. auto.
  - reflexivity.
Qed.

Lemma reachable_stateFG : reachable initialMorphisms stateFG.
Proof.
  apply reach_select with stateF "g".
  - apply reachable_stateF.
  - simpl. auto.
  - reflexivity.
Qed.

(** ** [canCompose] and [compose] *)

(** C6: [canCompose m1 m2] is true exactly when the target of [m1] is the
    source of [m2]; when it is not, the pair does not compose in that
    order, whether or not the reverse order does. *)
Theorem canCompose_iff_target_is_source (m1 m2 : Morphism) :
  (canCompose m1 m2 = true <-> target m1 = source m2) /\
  (target m1 <> source m2 ->
   canCompose m1 m2 = false /\ compose m1 m2 = None) /\
  (target m1 <> source m2 -> canCompose m2 m1 = true ->
   canCompose m1 m2 = false /\ compose m1 m2 = None).
Proof.
  split; [apply canCompose_true|].
  assert (Hwrong : target m1 <> source m2 ->
                   canCompose m1 m2 = false /\ compose m1 m2 = None).
  { intros Hne. apply canCompose_false in Hne.
    split; [assumption | now apply compose_cannot]. }
  split; [exact Hwrong | intros Hne _; exact (Hwrong Hne)].
Qed.

Lemma canCompose_iff_target_is_source_witness :
  canCompose f g = true /\
  canCompose g f = false /\ compose g f = None.
Proof.
  destruct (canCompose_iff_target_is_source f g) as [Hiff _].
  destruct (canCompose_iff_target_is_source g f) as [_ [_ Hwrong]].
  split.
  - apply Hiff. reflexivity.
  - apply Hwrong.
    + simpl. discriminate.
    + reflexivity.
Defined.

(** C5: when the target of [m1] is the source of [m2], [compose m1 m2] is
    the morphism whose id and label are those of [m2], the ring sign,
    then those of [m1], from the source of [m1] to the target of [m2];
    otherwise [compose m1 m2] is absent. *)
Theorem compose_label_convention (m1 m2 : Morphism) :
  (target m1 = source m2 ->
   compose m1 m2 =
     Some {| id := (id m2 ++ "∘" ++ id m1)%string;
             label := (label m2 ++ "∘" ++ label m1)%string;
             source := source m1;
             target := target m2 |}) /\
  (target m1 <> source m2 -> compose m1 m2 = None).
Proof.
  split; intros H.
  - apply compose_can. now apply canCompose_true.
  - apply compose_cannot. now apply canCompose_false.
Qed.

Lemma compose_label_convention_witness :
  compose f g =
    Some {| id := "g∘f"; label := "g∘f"; source := "A"; target := "C" |} /\
  compose f h = None.
Proof.
  split.
  - apply (proj1 (compose_label_convention f g)). reflexivity.
  - apply (proj2 (compose_label_convention f h)). simpl. discriminate.
Defined.

(** ** Laws of the handlers that hold in every state *)

(** C7: with exactly one id [x] selected, a click on [x] empties the
    selection and leaves no composite and no error. *)
Theorem toggle_single_selection (s : State) (x : string) :
  selected s = [x] ->
  exists s',
    handleSelectMorphism s x = Some s' /\
    selected s' = [] /\
    composition s' = None /\
    error s' = None.
Proof.
  intros Hsel. unfold handleSelectMorphism. rewrite Hsel. simpl.
  rewrite String.eqb_refl. simpl.
  eexists. split; [reflexivity|]. simpl. auto.
Qed.

Lemma toggle_single_selection_witness :
  exists s',
    handleSelectMorphism stateF "f" = Some s' /\
    selected s' = [] /\
    composition s' = None /\
    error s' = None.
Proof. apply (toggle_single_selection stateF "f"). reflexivity. Defined.

(** C8: [clearSelection] leaves the selection empty, no composite and no
    error, whatever the state; a second call changes nothing. *)
Theorem clearSelection_resets_idempotent (s : State) :
  selected (clearSelection s) = [] /\
  composition (clearSelection s) = None /\
  error (clearSelection s) = None /\
  clearSelection (clearSelection s) = clearSelection s /\
  forall n, run s (repeat ClearSelection (S n)) = Some (clearSelection s).
Proof.
  repeat split.
  intros n. simpl. induction n as [|n IH]; simpl.
  - reflexivity.
  - exact IH.
Qed.

(** ** The second click *)

(** C2: with [a] the sole selection and a click on a different catalog
    morphism [b], the order [a] then [b] is tried first and wins whenever
    the target of [a] is the source of [b], also when the reverse order
    is valid too; the order [b] then [a] is taken only when the first
    fails.  When exactly one order is valid, clicking [a] then [b] and
    clicking [b] then [a] from an empty selection end in the same state,
    with the composite of the valid order. *)
Theorem second_click_tries_selected_first
  (ms : list Morphism) (a b : Morphism) :
  findById ms (id a) = Some a ->
  findById ms (id b) = Some b ->
  id a <> id b ->
  (forall s,
     morphisms s = ms ->
     selected s = [id a] ->
     (target a = source b ->
      handleSelectMorphism s (id b) =
        Some {| morphisms := ms;
                selected := [id a; id b];
                composition :=
                  Some {| id := (id b ++ "∘" ++ id a)%string;
                          label := (label b ++ "∘" ++ label a)%string;
                          source := source a;
                          target := target b |};
                error := None;
                isNewComposition := true |}) /\
     (target a <> source b -> target b = source a ->
      handleSelectMorphism s (id b) =
        Some {| morphisms := ms;
                selected := [id b; id a];
                composition :=
                  Some {| id := (id a ++ "∘" ++ id b)%string;
                          label := (label a ++ "∘" ++ label b)%string;
                          source := source b;
                          target := target a |};
                error := None;
                isNewComposition := true |})) /\
  (forall s0,
     morphisms s0 = ms ->
     selected s0 = [] ->
     (target a = source b /\ target b <> source a) \/
     (target a <> source b /\ target b = source a) ->
     run s0 [SelectMorphism (id a); SelectMorphism (id b)] =
       run s0 [SelectMorphism (id b); SelectMorphism (id a)] /\
     exists s',
       run s0 [SelectMorphism (id a); SelectMorphism (id b)] = Some s' /\
       composition s' =
         (if canCompose a b then compose a b else compose b a) /\
       composition s' <> None).
Proof.
  intros Fa Fb Hab.
  assert (Hba : id b <> id a) by congruence.
  apply String.eqb_neq in Hab, Hba.
  split.
  - intros s Hms Hsel. unfold handleSelectMorphism.
    rewrite Hsel, Hms. simpl. rewrite Hab. simpl. rewrite Fa, Fb.
    split.
    + intros H. apply canCompose_true in H.
      now rewrite (compose_can a b H).
    + intros H1 H2. apply canCompose_false in H1.
      apply canCompose_true in H2.
      now rewrite (compose_cannot a b H1), (compose_can b a H2).
  - intros s0 Hms Hsel Hone. simpl. unfold handleSelectMorphism.
    rewrite Hsel, Hms. simpl. rewrite Hab, Hba. simpl. rewrite Fa, Fb.
    destruct Hone as [[H1 H2] | [H1 H2]].
    + apply canCompose_true in H1. apply canCompose_false in H2.
      rewrite (compose_can a b H1), (compose_cannot b a H2), H1.
      split; [reflexivity|].
      eexists. split; [reflexivity|]. simpl. split; congruence.
    + apply canCompose_false in H1. apply canCompose_true in H2.
      rewrite (compose_can b a H2), (compose_cannot a b H1), H1.
      split; [reflexivity|].
      eexists. split; [reflexivity|]. simpl. split; congruence.
Qed.

Lemma second_click_tries_selected_first_witness :
  handleSelectMorphism stateF "g" = Some stateFG /\
  run initialState [SelectMorphism "f"; SelectMorphism "g"] =
    run initialState [SelectMorphism "g"; SelectMorphism "f"].
Proof.
  destruct (second_click_tries_selected_first initialMorphisms f g)
    as [Hfirst Horder].
  - reflexivity.
  - reflexivity.
  - simpl. discriminate.
  - split.
    + apply (proj1 (Hfirst stateF eq_refl eq_refl)). reflexivity.
    + apply (Horder initialState eq_refl eq_refl).
      left. split; [reflexivity | simpl; discriminate].
Defined.

Lemma append_assoc (s1 s2 s3 : string) :
  ((s1 ++ s2) ++ s3 = s1 ++ s2 ++ s3)%string.
Proof.
  induction s1 as [|c s1 IH]; simpl; [reflexivity | now rewrite IH].
Qed.

Lemma message_names_both (m1 m2 : Morphism) :
  occursIn (label m1) (cannotComposeMessage m1 m2) /\
  occursIn (label m2) (cannotComposeMessage m1 m2).
Proof.
  unfold occursIn, cannotComposeMessage. split.
  - exists "Cannot compose: "%string. eexists. reflexivity.
  - exists ("Cannot compose: " ++ label m1 ++ " and ")%string.
    exists " are not composable (target ≠ source)"%string.
    now rewrite !append_assoc.
Qed.

(** C3: in a reachable state with [x] the sole selection, a click on a
    different catalog id [y], when the morphisms [a] and [b] they name
    compose in neither order, returns a state (it does not throw) with
    exactly [[y]] selected, no composite, and an error message in which
    the labels of [a] and of [b] both occur. *)
Theorem not_composable_reports_error
  (seed : list Morphism) (s : State) (x y : string) (a b : Morphism) :
  reachable seed s ->
  selected s = [x] ->
  x <> y ->
  findById seed x = Some a ->
  findById seed y = Some b ->
  target a <> source b ->
  target b <> source a ->
  exists s' msg,
    handleSelectMorphism s y = Some s' /\
    selected s' = [y] /\
    composition s' = None /\
    error s' = Some msg /\
    msg = cannotComposeMessage a b /\
    occursIn (label a) msg /\
    occursIn (label b) msg.
Proof.
  intros Hreach Hsel Hxy Fa Fb H1 H2.
  destruct (reachable_invariant seed s Hreach) as [Hms Hinv].
  rewrite Hsel in Hinv. destruct Hinv as [_ Hnone].
  apply canCompose_false in H1, H2. apply String.eqb_neq in Hxy.
  unfold handleSelectMorphism. rewrite Hsel, Hms. simpl.
  rewrite Hxy. simpl.
  rewrite Fa, Fb, (compose_cannot a b H1), (compose_cannot b a H2).
  do 2 eexists. split; [reflexivity|]. simpl.
  repeat split; try assumption; apply message_names_both.
Qed.

Lemma not_composable_reports_error_witness :
  exists s' msg,
    handleSelectMorphism stateF "h" = Some s' /\
    selected s' = ["h"] /\
    composition s' = None /\
    error s' = Some msg /\
    msg = cannotComposeMessage f h /\
    occursIn "f" msg /\
    occursIn "h" msg.
Proof.
  apply (not_composable_reports_error initialMorphisms stateF "f" "h" f h).
  - apply reachable_stateF.
  - reflexivity.
  - discriminate.
  - reflexivity.
  - reflexivity.
  - simpl. discriminate.
  - simpl. discriminate.
Defined.

(** ** The third click *)

(** C1, as stated, fails: in the reachable state with [f] and [g]
    selected, a click on [f] leaves [g] selected, not [f]. *)
Lemma third_click_on_selected_keeps_other :
  option_map selected (handleSelectMorphism stateFG "f") = Some ["g"] /\
  ~ resetOnThirdClickAsStated initialMorphisms.
Proof.
  split; [reflexivity|].
  intros H.
  destruct (H stateFG "f") as [s' [Hstep [Hsel _]]].
  - apply reachable_stateFG.
  - reflexivity.
  - simpl. auto.
  - injection Hstep as <-. discriminate Hsel.
Qed.

(** C1, amended: in a reachable state with two ids [x] and [y] selected,
    a click on a catalog id [z] returns a state with no composite and no
    error; its selection is exactly [[z]] when [z] is neither [x] nor
    [y], and is the other selected id alone when [z] is [x] or [y]. *)
Theorem third_click_resets_or_deselects
  (seed : list Morphism) (s : State) (x y z : string) :
  reachable seed s ->
  selected s = [x; y] ->
  In z (catalogIds seed) ->
  exists s',
    handleSelectMorphism s z = Some s' /\
    composition s' = None /\
    error s' = None /\
    (z <> x -> z <> y -> selected s' = [z]) /\
    (z = x -> selected s' = [y]) /\
    (z = y -> selected s' = [x]).
Proof.
  intros Hreach Hsel _.
  destruct (reachable_invariant seed s Hreach) as [_ Hinv].
  rewrite Hsel in Hinv. destruct Hinv as [Hxy _].
  unfold handleSelectMorphism. rewrite Hsel. simpl.
  eqb_cases x z; eqb_cases y z;
    eexists; (split; [reflexivity|]); simpl;
    repeat split; congruence.
Qed.

Lemma third_click_resets_or_deselects_witness :
  exists s',
    handleSelectMorphism stateFG "f" = Some s' /\
    composition s' = None /\
    error s' = None /\
    selected s' = ["g"].
Proof.
  destruct (third_click_resets_or_deselects
              initialMorphisms stateFG "f" "g" "f")
    as [s' [Hstep [Hcomp [Herr [_ [Hx _]]]]]].
  - apply reachable_stateFG.
  - reflexivity.
  - simpl. auto.
  - exists s'. repeat split; try assumption. now apply Hx.
Defined.

(** ** Invariants of the reachable states *)

(** C4: in a reachable state there is a composite exactly when two ids
    are selected and the catalog morphisms they name compose in at least
    one order. *)
Theorem composite_iff_two_composable (seed : list Morphism) (s : State) :
  reachable seed s ->
  (composition s <> None <->
   exists x y m1 m2,
     selected s = [x; y] /\
     findById (morphisms s) x = Some m1 /\
     findById (morphisms s) y = Some m2 /\
     composableEitherOrder m1 m2 = true).
Proof.
  intros Hreach.
  destruct (reachable_invariant seed s Hreach) as [Hms Hinv].
  rewrite Hms. split.
  - intros Hcomp.
    destruct (selected s) as [|x [|y [|w rest]]].
    + contradiction.
    + destruct Hinv as [_ Hnone]. contradiction.
    + destruct Hinv as [_ [m1 [m2 [F1 [F2 [Hcan _]]]]]].
      exists x, y, m1, m2. repeat split; try assumption.
      unfold composableEitherOrder. now rewrite Hcan.
    + contradiction.
  - intros [x [y [m1 [m2 [Hsel _]]]]].
    rewrite Hsel in Hinv.
    destruct Hinv as [_ [n1 [n2 [_ [_ [Hcan ->]]]]]].
    now rewrite (compose_can n1 n2 Hcan).
Qed.

Lemma composite_iff_two_composable_witness :
  composition stateFG <> None /\ composition stateF = None.
Proof.
  split.
  - apply (proj2 (composite_iff_two_composable
                    initialMorphisms stateFG reachable_stateFG)).
    exists "f", "g", f, g. repeat split.
  - destruct (composition stateF) as [c|] eqn:Hc; [|reflexivity].
    assert (Hsome : composition stateF <> None) by (rewrite Hc; discriminate).
    apply (proj1 (composite_iff_two_composable
                    initialMorphisms stateF reachable_stateF)) in Hsome.
    destruct Hsome as [x [y [m1 [m2 [Hsel _]]]]]. discriminate Hsel.
Defined.

Lemma filter_length_le (p : string -> bool) (l : list string) :
  length (filter p l) <= length l.
Proof.
  induction l as [|i l IH]; simpl; [lia|].
  destruct (p i); simpl; lia.
Qed.

(** C9: a reachable state has at most two ids selected, and from a
    reachable state no click (on any id) and no Clear returns a state
    with more than two. *)
Theorem selection_never_exceeds_two (seed : list Morphism) :
  (forall s, reachable seed s -> length (selected s) <= 2) /\
  (forall s a s',
     reachable seed s -> step s a = Some s' -> length (selected s') <= 2).
Proof.
  assert (Hstate : forall s, reachable seed s -> length (selected s) <= 2).
  { intros s Hreach.
    destruct (reachable_invariant seed s Hreach) as [_ Hinv].
    destruct (selected s) as [|x [|y [|w rest]]]; simpl; lia. }
  split; [exact Hstate|].
  intros s a s' Hreach Hstep. specialize (Hstate s Hreach).
  destruct a as [z|]; simpl in Hstep.
  - unfold handleSelectMorphism in Hstep.
    destruct (includes (selected s) z).
    + injection Hstep as <-. simpl.
      pose proof (filter_length_le
                    (fun i => negb (i =? z)%string) (selected s)).
      lia.
    + repeat match type of Hstep with
             | context [match ?x with _ => _ end] => destruct x
             end;
        try discriminate; injection Hstep as <-; simpl; lia.
  - injection Hstep as <-. simpl. lia.
Qed.

Lemma selection_never_exceeds_two_witness :
  length (selected stateFG) <= 2 /\
  forall s', step stateFG (SelectMorphism "h") = Some s' ->
             length (selected s') <= 2.
Proof.
  destruct (selection_never_exceeds_two initialMorphisms) as [Hstate Hstep].
  split.
  - apply Hstate. apply reachable_stateFG.
  - intros s' H.
    apply (Hstep stateFG (SelectMorphism "h") s' reachable_stateFG H).
Defined.

(** ** The catalog *)

Lemma composite_not_in_seed (m1 m2 c : Morphism) :
  In m1 initialMorphisms ->
  In m2 initialMorphisms ->
  compose m1 m2 = Some c ->
  ~ In (id c) (catalogIds initialMorphisms).
Proof.
  intros H1 H2 Hc.
  rewrite (compose_can m1 m2 (compose_Some_can m1 m2 c Hc)) in Hc.
  injection Hc as <-. simpl in H1, H2.
  repeat match goal with
         | H : _ \/ _ |- _ => destruct H as [<- | H]
         | H : False |- _ => destruct H
         end;
    simpl; intuition discriminate.
Qed.

(** C10: no sequence of clicks and Clears changes the catalog of the
    component: whenever a run from the first render returns, the catalog
    is the seed; every run of clicks on catalog morphisms and Clears
    returns, and a composite it leaves is neither a member of the catalog
    nor named by a catalog id, so no click can select it. *)
Theorem catalog_never_mutated (acts : list Action) :
  (forall s', run initialState acts = Some s' ->
              morphisms s' = initialMorphisms) /\
  (forallb (offered initialMorphisms) acts = true ->
   exists s',
     run initialState acts = Some s' /\
     morphisms s' = initialMorphisms /\
     forall c, composition s' = Some c ->
               ~ In c (morphisms s') /\
               offered (morphisms s') (SelectMorphism (id c)) = false).
Proof.
  split.
  - intros s' Hrun. now rewrite (run_frame acts initialState s' Hrun).
  - intros Hacts.
    destruct (run_reachable initialMorphisms acts initialState
                (reach_init initialMorphisms) Hacts) as [s' [Hrun Hreach]].
    exists s'. split; [assumption|].
    destruct (reachable_invariant _ _ Hreach) as [Hms Hinv].
    split; [assumption|].
    intros c Hc. rewrite Hms.
    assert (Hid : ~ In (id c) (catalogIds initialMorphisms)).
    { destruct (selected s') as [|x [|y [|w rest]]].
      - congruence.
      - destruct Hinv as [_ Hnone]. congruence.
      - destruct Hinv as [_ [m1 [m2 [F1 [F2 [_ Hcomp]]]]]].
        apply findById_Some in F1, F2.
        apply composite_not_in_seed with m1 m2; try tauto. congruence.
      - contradiction. }
    split.
    + intros Hin. apply Hid. unfold catalogIds. now apply in_map.
    + unfold offered. now apply includes_not_In.
Qed.

Lemma catalog_never_mutated_witness :
  exists s',
    run initialState [SelectMorphism "f"; SelectMorphism "g"] = Some s' /\
    morphisms s' = initialMorphisms /\
    forall c, composition s' = Some c ->
              ~ In c (morphisms s') /\
              offered (morphisms s') (SelectMorphism (id c)) = false.
Proof.
  apply (proj2 (catalog_never_mutated
                  [SelectMorphism "f"; SelectMorphism "g"])).
  reflexivity.
Defined.

(** ** The display hooks along every run *)

Lemma compose_None_cannot (m1 m2 : Morphism) :
  compose m1 m2 = None -> canCompose m1 m2 = false.
Proof.
  unfold compose. destruct (canCompose m1 m2); simpl; congruence.
Qed.

Lemma display_select (seed : list Morphism) (s s' : State) (z : string) :
  selectionInvariant seed s ->
  handleSelectMorphism s z = Some s' ->
  displayInvariant seed s'.
Proof.
  intros [Hcat Hsel] Hstep. unfold handleSelectMorphism in Hstep.
  unfold displayInvariant, hasComposition.
  destruct (selected s) as [|x [|y [|w rest]]]; simpl in Hstep.
  - injection Hstep as <-. simpl. auto.
  - destruct Hsel as [Hx Hnone].
    eqb_cases x z.
    + injection Hstep as <-. simpl. auto.
    + rewrite Hcat in Hstep.
      destruct (findById seed x) as [m1|] eqn:F1; [|discriminate].
      destruct (findById seed z) as [m2|] eqn:F2; [|discriminate].
      destruct (compose m1 m2) as [c|] eqn:C12.
      * injection Hstep as <-. simpl. auto.
      * destruct (compose m2 m1) as [c|] eqn:C21; injection Hstep as <-;
          simpl.
        -- auto.
        -- rewrite Hnone. split; [reflexivity|].
           exists x, z, m1, m2.
           repeat split; auto using compose_None_cannot.
  - eqb_cases x z; eqb_cases y z; injection Hstep as <-; simpl; auto.
  - contradiction.
Qed.

Lemma reachable_display (seed : list Morphism) (s : State) :
  reachable seed s -> displayInvariant seed s.
Proof.
  destruct 1 as [|s z s' Hs Hz Hstep|s Hs].
  - split; reflexivity.
  - exact (display_select seed s s' z (reachable_invariant seed s Hs) Hstep).
  - split; reflexivity.
Qed.

Lemma message_not_empty (m1 m2 : Morphism) :
  cannotComposeMessage m1 m2 <> ""%string.
Proof. unfold cannotComposeMessage. simpl. discriminate. Qed.

(** X1: in a reachable state with a composite, exactly two ids are
    selected, in the order of application: the catalog morphism named by
    [selected[0]] ends where the one named by [selected[1]] starts, and
    the composite runs from the source of the first to the target of the
    second under the label of the second, the ring sign, the label of the
    first.  So the panel's "first apply [selected[0]], then apply
    [selected[1]]" describes the composite shown. *)
Theorem result_panel_reads_in_applied_order
  (seed : list Morphism) (s : State) (c : Morphism) :
  reachable seed s ->
  composition s = Some c ->
  exists x y m1 m2,
    selected s = [x; y] /\
    appliedFirst s = Some x /\
    appliedSecond s = Some y /\
    findById (morphisms s) x = Some m1 /\
    findById (morphisms s) y = Some m2 /\
    target m1 = source m2 /\
    source c = source m1 /\
    target c = target m2 /\
    label c = (label m2 ++ "∘" ++ label m1)%string /\
    id c = (y ++ "∘" ++ x)%string.
Proof.
  intros Hreach Hc.
  destruct (reachable_invariant seed s Hreach) as [Hms Hinv].
  unfold appliedFirst, appliedSecond. rewrite Hms.
  destruct (selected s) as [|x [|y [|w rest]]].
  - congruence.
  - destruct Hinv as [_ Hnone]. congruence.
  - destruct Hinv as [_ [m1 [m2 [F1 [F2 [Hcan Hcomp]]]]]].
    rewrite (compose_can m1 m2 Hcan), Hc in Hcomp.
    injection Hcomp as ->.
    exists x, y, m1, m2. simpl.
    destruct (findById_Some seed x m1 F1) as [_ <-].
    destruct (findById_Some seed y m2 F2) as [_ <-].
    repeat split; try assumption. now apply canCompose_true.
  - contradiction.
Qed.

Lemma result_panel_reads_in_applied_order_witness :
  exists x y m1 m2,
    selected stateFG = [x; y] /\
    appliedFirst stateFG = Some x /\
    appliedSecond stateFG = Some y /\
    findById initialMorphisms x = Some m1 /\
    findById initialMorphisms y = Some m2 /\
    target m1 = source m2 /\
    "A"%string = source m1 /\
    "C"%string = target m2 /\
    "g∘f"%string = (label m2 ++ "∘" ++ label m1)%string /\
    "g∘f"%string = (y ++ "∘" ++ x)%string.
Proof.
  apply (result_panel_reads_in_applied_order initialMorphisms stateFG
           {| id := "g∘f"; label := "g∘f"; source := "A"; target := "C" |}).
  - apply reachable_stateFG.
  - reflexivity.
Defined.

(** X2: in a reachable state an error is always the report of a failed
    pair: exactly one id [y] is selected, there is no composite, and the
    message is the one built from a catalog morphism [m1] with another id
    and the morphism [m2] named by [y], which compose in neither order;
    the message is not empty, so the error panel is shown. *)
Theorem error_reports_last_failed_pair
  (seed : list Morphism) (s : State) (msg : string) :
  reachable seed s ->
  error s = Some msg ->
  showsError s = true /\
  composition s = None /\
  exists x y m1 m2,
    selected s = [y] /\
    x <> y /\
    findById (morphisms s) x = Some m1 /\
    findById (morphisms s) y = Some m2 /\
    target m1 <> source m2 /\
    target m2 <> source m1 /\
    msg = cannotComposeMessage m1 m2.
Proof.
  intros Hreach Herr.
  destruct (reachable_invariant seed s Hreach) as [Hms Hinv].
  destruct (reachable_display seed s Hreach) as [_ Hdisp].
  unfold showsError. rewrite Herr in *.
  destruct Hdisp as [x [y [m1 [m2 [Hsel [Hxy [F1 [F2 [H1 [H2 ->]]]]]]]]]].
  rewrite Hsel in Hinv. destruct Hinv as [_ Hnone].
  split.
  - apply negb_true_iff, String.eqb_neq, message_not_empty.
  - split; [assumption|].
    exists x, y, m1, m2. rewrite Hms.
    repeat split; try assumption; now apply canCompose_false.
Qed.

Lemma reachable_stateFthenH : reachable initialMorphisms stateFthenH.
Proof.
  apply reach_select with stateF "h".
  - apply reachable_stateF.
  - simpl. auto.
  - reflexivity.
Qed.

Lemma error_reports_last_failed_pair_witness :
  showsError stateFthenH = true /\
  composition stateFthenH = None /\
  exists x y m1 m2,
    selected stateFthenH = [y] /\
    x <> y /\
    findById initialMorphisms x = Some m1 /\
    findById initialMorphisms y = Some m2 /\
    target m1 <> source m2 /\
    target m2 <> source m1 /\
    "Cannot compose: f and h are not composable (target ≠ source)"%string
      = cannotComposeMessage m1 m2.
Proof.
  apply (error_reports_last_failed_pair initialMorphisms stateFthenH).
  - apply reachable_stateFthenH.
  - reflexivity.
Defined.

(** X3: in a reachable state the panels follow the size of the
    selection: the result panel is shown exactly with two ids selected,
    the hint asking for a second morphism exactly with one, the result is
    always flagged as new, and the error panel only appears together with
    the hint. *)
Theorem panels_follow_selection_size (seed : list Morphism) (s : State) :
  reachable seed s ->
  showsResult s = Nat.eqb (length (selected s)) 2 /\
  showsSelectionHint s = Nat.eqb (length (selected s)) 1 /\
  isNewComposition s = showsResult s /\
  (showsError s = true -> showsSelectionHint s = true).
Proof.
  intros Hreach.
  destruct (reachable_invariant seed s Hreach) as [_ Hinv].
  destruct (reachable_display seed s Hreach) as [Hnew Hdisp].
  assert (Hres : hasComposition s = Nat.eqb (length (selected s)) 2).
  { unfold hasComposition.
    destruct (selected s) as [|x [|y [|w rest]]]; simpl.
    - now rewrite Hinv.
    - destruct Hinv as [_ ->]. reflexivity.
    - destruct Hinv as [_ [m1 [m2 [_ [_ [Hcan Hcomp]]]]]].
      now rewrite Hcomp, (compose_can m1 m2 Hcan).
    - contradiction. }
  unfold showsResult, showsSelectionHint. rewrite Hnew, Hres.
  repeat split.
  - destruct (length (selected s)) as [|[|[|n]]]; reflexivity.
  - unfold showsError. destruct (error s) as [msg|]; [|discriminate].
    destruct Hdisp as [x [y [m1 [m2 [Hsel _]]]]].
    now rewrite Hsel.
Qed.

Lemma panels_follow_selection_size_witness :
  showsResult stateFG = true /\
  showsSelectionHint stateFG = false /\
  isNewComposition stateFG = showsResult stateFG /\
  (showsError stateFG = true -> showsSelectionHint stateFG = true).
Proof.
  apply (panels_follow_selection_size initialMorphisms stateFG).
  apply reachable_stateFG.
Defined.

(** X4: the first render is the only reachable state with nothing
    selected; so Clear, and a click that deselects the sole selection,
    bring a reachable state back to exactly the first render. *)
Theorem empty_selection_is_first_render (seed : list Morphism) (s : State) :
  reachable seed s ->
  (selected s = [] -> s = initState seed) /\
  clearSelection s = initState seed /\
  (forall x, selected s = [x] ->
             handleSelectMorphism s x = Some (initState seed)).
Proof.
  intros Hreach.
  destruct (reachable_invariant seed s Hreach) as [Hms Hinv].
  destruct (reachable_display seed s Hreach) as [Hnew Hdisp].
  unfold hasComposition in Hnew.
  repeat split.
  - intros Hsel. rewrite Hsel in *.
    destruct s as [ms sel comp err new]; simpl in *. subst.
    destruct err as [msg|]; [|reflexivity].
    destruct Hdisp as [x [y [m1 [m2 [Habs _]]]]]. discriminate.
  - unfold clearSelection, initState. now rewrite Hms.
  - intros x Hsel. unfold handleSelectMorphism, initState.
    rewrite Hsel, Hms. simpl. now rewrite String.eqb_refl.
Qed.

Lemma empty_selection_is_first_render_witness :
  clearSelection stateFG = initialState /\
  handleSelectMorphism stateF "f" = Some initialState.
Proof.
  destruct (empty_selection_is_first_render initialMorphisms stateFG
              reachable_stateFG) as [_ [Hclear _]].
  destruct (empty_selection_is_first_render initialMorphisms stateF
              reachable_stateF) as [_ [_ Htoggle]].
  split; [exact Hclear | now apply Htoggle].
Defined.

(** X5: in a reachable state with [x] then [y] selected, clicking [y]
    twice (deselect, select again) gives back the very same state; so
    does clicking [x] twice, provided the morphism of [y] followed by the
    morphism of [x] is not a valid order too. *)
Theorem deselect_reselect_restores
  (seed : list Morphism) (s : State) (x y : string) :
  reachable seed s ->
  selected s = [x; y] ->
  run s [SelectMorphism y; SelectMorphism y] = Some s /\
  (forall m1 m2,
     findById seed x = Some m1 ->
     findById seed y = Some m2 ->
     target m2 <> source m1 ->
     run s [SelectMorphism x; SelectMorphism x] = Some s).
Proof.
  intros Hreach Hsel.
  destruct (reachable_invariant seed s Hreach) as [Hms Hinv].
  destruct (reachable_display seed s Hreach) as [Hnew Hdisp].
  unfold hasComposition in Hnew.
  destruct s as [ms sel comp err new]; simpl in *. subst ms sel.
  destruct Hinv as [Hxy [m1 [m2 [F1 [F2 [Hcan Hcomp]]]]]].
  assert (Hyx : y <> x) by congruence.
  apply String.eqb_neq in Hxy, Hyx.
  assert (Herr : err = None).
  { destruct err as [msg|]; [|reflexivity].
    destruct Hdisp as [x' [y' [n1 [n2 [Habs _]]]]]. discriminate. }
  rewrite (compose_can m1 m2 Hcan) in Hcomp. subst comp err new.
  split.
  - unfold handleSelectMorphism; simpl.
    rewrite Hxy, String.eqb_refl. simpl.
    unfold handleSelectMorphism; simpl. rewrite Hxy. simpl.
    now rewrite F1, F2, (compose_can m1 m2 Hcan).
  - intros n1 n2 G1 G2 Hne.
    assert (n1 = m1) by congruence. assert (n2 = m2) by congruence.
    subst n1 n2. apply canCompose_false in Hne.
    unfold handleSelectMorphism; simpl.
    rewrite String.eqb_refl, Hyx. simpl.
    unfold handleSelectMorphism; simpl. rewrite Hyx. simpl.
    now rewrite F1, F2, (compose_cannot m2 m1 Hne), (compose_can m1 m2 Hcan).
Qed.

Lemma deselect_reselect_restores_witness :
  run stateFG [SelectMorphism "g"; SelectMorphism "g"] = Some stateFG /\
  run stateFG [SelectMorphism "f"; SelectMorphism "f"] = Some stateFG.
Proof.
  destruct (deselect_reselect_restores initialMorphisms stateFG "f" "g"
              reachable_stateFG eq_refl) as [Hsecond Hfirst].
  split; [exact Hsecond|].
  apply (Hfirst f g); [reflexivity | reflexivity | simpl; discriminate].
Defined.

(** ** Clicks on ids outside the catalog *)

Lemma findById_None (ms : list Morphism) (key : string) :
  ~ In key (catalogIds ms) -> findById ms key = None.
Proof.
  intros Hnot. destruct (findById ms key) as [m|] eqn:F; [|reflexivity].
  exfalso. apply Hnot. now apply findById_catalog with m.
Qed.

(** X6: for an id [z] that names no catalog morphism, a click in a
    reachable state throws when exactly one id is selected (the lookup of
    [z] is [undefined]), and otherwise returns with [z] as the sole
    selection; in that state a click on any other id throws as well,
    because the lookup of the selected [z] fails. *)
Theorem unknown_id_throws_on_second_selection
  (seed : list Morphism) (s : State) (z : string) :
  reachable seed s ->
  ~ In z (catalogIds seed) ->
  (length (selected s) = 1 -> handleSelectMorphism s z = None) /\
  (length (selected s) <> 1 ->
   exists s',
     handleSelectMorphism s z = Some s' /\
     selected s' = [z] /\
     forall w, w <> z -> handleSelectMorphism s' w = None).
Proof.
  intros Hreach Hz.
  destruct (reachable_invariant seed s Hreach) as [Hms Hinv].
  pose proof (findById_None seed z Hz) as Fz.
  assert (Hafter : forall s',
             morphisms s' = seed -> selected s' = [z] ->
             forall w, w <> z -> handleSelectMorphism s' w = None).
  { intros s' Hms' Hsel' w Hw. unfold handleSelectMorphism.
    rewrite Hsel', Hms'. simpl.
    assert (Hzw : z <> w) by congruence.
    apply String.eqb_neq in Hzw. rewrite Hzw. simpl. now rewrite Fz. }
  unfold handleSelectMorphism.
  destruct (selected s) as [|x [|y [|w rest]]]; simpl; split;
    try (intros; lia); try contradiction.
  - intros _. eexists. split; [reflexivity|]. split; [reflexivity|].
    now apply Hafter.
  - intros _. destruct Hinv as [Hx _].
    eqb_cases x z.
    rewrite Hms, Fz. now destruct (findById seed x).
  - intros _. destruct Hinv as [_ [m1 [m2 [F1 [F2 _]]]]].
    apply findById_catalog in F1, F2.
    eqb_cases x z. eqb_cases y z.
    eexists. split; [reflexivity|]. split; [reflexivity|].
    now apply Hafter.
Qed.

Lemma unknown_id_throws_on_second_selection_witness :
  handleSelectMorphism stateF "g∘f" = None /\
  exists s',
    handleSelectMorphism stateFG "g∘f" = Some s' /\
    selected s' = ["g∘f"%string] /\
    forall w, w <> "g∘f"%string -> handleSelectMorphism s' w = None.
Proof.
  assert (Hz : ~ In "g∘f"%string (catalogIds initialMorphisms)).
  { simpl. intuition discriminate. }
  split.
  - apply (proj1 (unknown_id_throws_on_second_selection
                    initialMorphisms stateF "g∘f" reachable_stateF Hz)).
    reflexivity.
  - apply (proj2 (unknown_id_throws_on_second_selection
                    initialMorphisms stateFG "g∘f" reachable_stateFG Hz)).
    simpl. discriminate.
Defined.

(** ** The selection and the drawing *)

(** X7: in a reachable state no id is selected twice and every selected
    id names a catalog morphism, so each highlighted arrow and button
    exists. *)
Theorem selected_ids_are_distinct_catalog_ids
  (seed : list Morphism) (s : State) :
  reachable seed s ->
  NoDup (selected s) /\
  forall i, In i (selected s) ->
            exists m, findById (morphisms s) i = Some m /\ id m = i /\
                      In m seed.
Proof.
  intros Hreach.
  destruct (reachable_invariant seed s Hreach) as [Hms Hinv].
  assert (Hfind : forall i, In i (catalogIds seed) ->
                   exists m, findById (morphisms s) i = Some m /\
                             id m = i /\ In m seed).
  { intros i Hi. rewrite Hms.
    destruct (catalog_findById seed i Hi) as [m F].
    destruct (findById_Some seed i m F) as [Hin Hid]. eauto. }
  destruct (selected s) as [|x [|y [|w rest]]].
  - split; [constructor | intros i []].
  - destruct Hinv as [Hx _]. split.
    + repeat constructor. intros [].
    + intros i [<- | []]. now apply Hfind.
  - destruct Hinv as [Hxy [m1 [m2 [F1 [F2 _]]]]].
    apply findById_catalog in F1, F2. split.
    + repeat constructor; simpl; intuition.
    + intros i [<- | [<- | []]]; now apply Hfind.
  - contradiction.
Qed.

Lemma selected_ids_are_distinct_catalog_ids_witness :
  NoDup (selected stateFG) /\
  forall i, In i (selected stateFG) ->
            exists m, findById initialMorphisms i = Some m /\ id m = i /\
                      In m initialMorphisms.
Proof.
  apply (selected_ids_are_distinct_catalog_ids initialMorphisms stateFG).
  apply reachable_stateFG.
Defined.

(** X8: when both ends of every catalog morphism have a position, so do
    both ends of every composite a reachable state holds: the composite
    arc passes the guard of the drawing code and is drawn. *)
Theorem composite_arc_has_positions
  (seed : list Morphism) (s : State) (c : Morphism) :
  forallb hasPositions seed = true ->
  reachable seed s ->
  composition s = Some c ->
  hasPositions c = true.
Proof.
  intros Hseed Hreach Hc.
  destruct (reachable_invariant seed s Hreach) as [_ Hinv].
  rewrite forallb_forall in Hseed.
  destruct (selected s) as [|x [|y [|w rest]]].
  - congruence.
  - destruct Hinv as [_ Hnone]. congruence.
  - destruct Hinv as [_ [m1 [m2 [F1 [F2 [Hcan Hcomp]]]]]].
    rewrite (compose_can m1 m2 Hcan), Hc in Hcomp. injection Hcomp as ->.
    apply findById_Some in F1, F2.
    pose proof (Hseed m1 (proj1 F1)) as P1.
    pose proof (Hseed m2 (proj1 F2)) as P2.
    unfold hasPositions in *. simpl.
    destruct (positionOf (source m1)); [|discriminate].
    destruct (positionOf (target m2)); [reflexivity|].
    now destruct (positionOf (source m2)).
  - contradiction.
Qed.

Lemma composite_arc_has_positions_witness :
  hasPositions
    {| id := "g∘f"; label := "g∘f"; source := "A"; target := "C" |} = true.
Proof.
  apply (composite_arc_has_positions initialMorphisms stateFG).
  - reflexivity.
  - apply reachable_stateFG.
  - reflexivity.
Defined.

End MorphismComposer.

(** * Results about the book structure *)

Module BookStructureFacts.

Import BookStructure.

Open Scope list_scope.
Open Scope string_scope.
Open Scope Z_scope.

(** Settles one comparison of the goal by linear arithmetic. *)
Ltac cmp_step :=
  match goal with
  | |- context [(?a >=? ?b)] => rewrite (Z.geb_leb a b)
  | |- context [(?a <=? ?b)] =>
      first [ rewrite (proj2 (Z.leb_le a b)) by lia
            | rewrite (proj2 (Z.leb_gt a b)) by lia ]
  | |- context [(?a <? ?b)] =>
      first [ rewrite (proj2 (Z.ltb_lt a b)) by lia
            | rewrite (proj2 (Z.ltb_ge a b)) by lia ]
  end.

Ltac book_unfold :=
  unfold getConceptsForPage, getSectionByPage, getChapterByPage,
    isFrontMatter;
  cbn [bookStructure chapters totalPages find chStartPage chEndPage
       sections secStartPage secEndPage andb].

Ltac book_eval :=
  book_unfold;
  repeat (cmp_step;
          cbn [find chStartPage chEndPage sections secStartPage
               secEndPage andb]).

(** The ranges of pages on which the lookups are constant. *)
Lemma page_ranges (p : Z) :
  p < 5 \/ p = 5 \/ p = 6 \/ 7 <= p <= 8 \/ 9 <= p <= 14 \/
  15 <= p <= 20 \/ 21 <= p <= 27 \/ 28 <= p <= 30 \/ 31 <= p <= 32 \/
  33 <= p <= 35 \/ 36 <= p <= 39 \/ 40 <= p <= 44 \/ 45 <= p <= 48 \/
  49 <= p <= 60 \/ 61 <= p <= 80 \/ 80 < p.
Proof. lia. Qed.

Ltac by_page_range p :=
  let H := fresh "Hrange" in
  pose proof (page_ranges p) as H;
  repeat (destruct H as [H | H]).

(** X9: for every page number, a chapter is found exactly for the pages
    5 to 80, and so is a section; hence, among the pages of the book, the
    front matter is exactly the pages without chapter, without section
    and without concepts to show. *)
Theorem front_matter_is_pages_without_section (p : Z) :
  (getChapterByPage p <> None <-> 5 <= p <= 80) /\
  (getSectionByPage p <> None <-> 5 <= p <= 80) /\
  (1 <= p <= totalPages bookStructure ->
   (isFrontMatter p = true <-> getSectionByPage p = None)).
Proof.
  by_page_range p; book_eval;
    (repeat split; intros; try lia; try congruence; try discriminate).
Qed.

Lemma front_matter_is_pages_without_section_witness :
  isFrontMatter 3 = true <-> getSectionByPage 3 = None.
Proof.
  apply (front_matter_is_pages_without_section 3). simpl. lia.
Defined.

(** X10: the section found for a page holds the page in its range,
    belongs to the chapter found for the page, and lies within the pages
    of that chapter. *)
Theorem section_lies_in_chapter_of_page (p : Z) (sec : BookSection) :
  getSectionByPage p = Some sec ->
  secStartPage sec <= p <= secEndPage sec /\
  exists ch,
    getChapterByPage p = Some ch /\
    In sec (sections ch) /\
    chStartPage ch <= secStartPage sec /\
    secEndPage sec <= chEndPage ch.
Proof.
  by_page_range p; book_eval; intros Hsec;
    try discriminate Hsec;
    injection Hsec as <-;
    (split; [cbn; lia|]);
    (eexists; split; [reflexivity|]; cbn; intuition lia).
Qed.

Lemma section_lies_in_chapter_of_page_witness :
  exists sec,
    getSectionByPage 34 = Some sec /\
    secNumber sec = "2a" /\
    secStartPage sec <= 34 <= secEndPage sec /\
    exists ch,
      getChapterByPage 34 = Some ch /\
      In sec (sections ch) /\
      chStartPage ch <= secStartPage sec /\
      secEndPage sec <= chEndPage ch.
Proof.
  eexists. split; [reflexivity|]. split; [reflexivity|].
  apply (section_lies_in_chapter_of_page 34). reflexivity.
Defined.

(** X11: the page ranges of the first chapter overlap, and the lookup
    returns the first match: the section "Acknowledgements" is the
    section of no page, and the entries of the table of contents whose
    page does not lead to their own section are exactly those of
    sections 0.2, 0.3 and 0.4. *)
Theorem overlapping_sections_are_shadowed :
  (forall p sec, getSectionByPage p = Some sec -> secId sec <> "sec-0-2") /\
  (forall item child,
     In item getTableOfContents ->
     In child (children item) ->
     (option_map secId (getSectionByPage (childPage child))
        = Some (childId child)
      <-> ~ In (childId child) ["sec-0-2"; "sec-0-3"; "sec-0-4"])).
Proof.
  split.
  - intros p sec. by_page_range p; book_eval; intros Hsec;
      try discriminate Hsec; injection Hsec as <-; cbn; discriminate.
  - intros item child Hitem Hchild.
    unfold getTableOfContents in Hitem. cbn in Hitem.
    repeat match goal with
           | H : _ \/ _ |- _ => destruct H as [H | H]
           | H : False |- _ => destruct H
           end;
      subst item; cbn in Hchild;
      repeat match goal with
             | H : _ \/ _ |- _ => destruct H as [H | H]
             | H : False |- _ => destruct H
             end;
      subst child; vm_compute;
      (split; intros H;
       first [ reflexivity
             | discriminate H
             | intros Hin; intuition discriminate
             | exfalso; apply H; tauto ]).
Qed.

Lemma overlapping_sections_are_shadowed_witness :
  option_map secId (getSectionByPage 6) <> Some "sec-0-4".
Proof.
  destruct overlapping_sections_are_shadowed as [_ Htoc].
  intros Heq.
  apply (Htoc
           {| itemId := "chapter-0"; itemLabel := "0. Introduction";
              itemPage := 5;
              children :=
                [ {| childId := "sec-0-1"; childLabel := "0.1 Aim";
                     childPage := 5 |};
                  {| childId := "sec-0-2";
                     childLabel := "0.2 Acknowledgements";
                     childPage := 5 |};
                  {| childId := "sec-0-3";
                     childLabel := "0.3 Why category theory?";
                     childPage := 5 |};
                  {| childId := "sec-0-4";
                     childLabel := "0.4 Notational conventions";
                     childPage := 6 |} ] |}
           {| childId := "sec-0-4";
              childLabel := "0.4 Notational conventions";
              childPage := 6 |}).
  - left. reflexivity.
  - simpl. tauto.
  - exact Heq.
  - simpl. tauto.
Defined.

(** ** The path of a page image *)

Lemma append_inj_left (s a b : string) : s ++ a = s ++ b -> a = b.
Proof.
  induction s as [|c s IH]; simpl; intros H.
  - exact H.
  - injection H as H. now apply IH.
Qed.

Lemma length_append (a b : string) :
  String.length (a ++ b) = (String.length a + String.length b)%nat.
Proof. induction a as [|c a IH]; simpl; [reflexivity | now rewrite IH]. Qed.

Lemma append_inj_right (s : string) :
  forall a b, a ++ s = b ++ s -> a = b.
Proof.
  induction a as [|c a IH]; destruct b as [|d b]; simpl; intros H.
  - reflexivity.
  - apply (f_equal String.length) in H. simpl in H.
    rewrite length_append in H. lia.
  - apply (f_equal String.length) in H. simpl in H.
    rewrite length_append in H. lia.
  - injection H as -> H. f_equal. now apply IH.
Qed.

Lemma readPage_pageString (p : Z) : readPage (pageString p) = Some p.
Proof.
  unfold readPage, pageString.
  rewrite NilZero.isi.
  - simpl. now rewrite DecimalZ.of_to.
  - destruct p; simpl; try discriminate.
    intros H. injection H as H.
    now apply DecimalPos.Unsigned.to_uint_nonnil in H.
  - destruct p; simpl; try discriminate.
    intros H. injection H as H.
    now apply DecimalPos.Unsigned.to_uint_nonnil in H.
Qed.

(** Padding does not change the number read back. *)
Lemma readPage_padStart2 (p : Z) :
  readPage (padStart2 (pageString p)) = Some p.
Proof.
  pose proof (readPage_pageString p) as Hread.
  unfold padStart2.
  destruct (pageString p) as [|c [|d rest]]; simpl String.length; cbv iota.
  - discriminate Hread.
  - destruct c as [[] [] [] [] [] [] [] []];
      cbv in Hread; try discriminate Hread;
      injection Hread as <-; reflexivity.
  - exact Hread.
Qed.



End BookStructureFacts.

(** * Results about the book reducer and the page form *)

Module BookContextFacts.

Import BookStructure BookContext PageNavigation.

Open Scope Z_scope.

Lemma reducer_keeps_total {D : Doubles} (s : BookState D)
  (a : BookAction D) :
  totalPages (bookReducer s a) = totalPages s.
Proof. destruct a; reflexivity. Qed.

Lemma reducer_keeps_page_in_range {D : Doubles} (s : BookState D)
  (a : BookAction D) :
  1 <= currentPage s <= totalPages s ->
  1 <= currentPage (bookReducer s a) <= totalPages s.
Proof. destruct a; simpl; lia. Qed.



(** X14: in a book with at least one page, [SET_PAGE] lands on its
    payload exactly when the payload is a page of the book; a payload
    below 1 lands on page 1 and one beyond the last page on the last
    page. *)
Theorem set_page_lands_on_pages_of_book {D : Doubles} (s : BookState D)
  (p : Z) :
  1 <= totalPages s ->
  (currentPage (bookReducer s (SET_PAGE p)) = p
   <-> 1 <= p <= totalPages s) /\
  (p < 1 -> currentPage (bookReducer s (SET_PAGE p)) = 1) /\
  (totalPages s < p ->
   currentPage (bookReducer s (SET_PAGE p)) = totalPages s).
Proof. simpl. lia. Qed.

Lemma set_page_lands_on_pages_of_book_witness :
  currentPage (bookReducer (initialState exactDoubles) (SET_PAGE 81)) = 80.
Proof.
  apply (set_page_lands_on_pages_of_book (initialState exactDoubles) 81).
  - simpl. lia.
  - simpl. lia.
Defined.

Lemma state_eq {D : Doubles} (s : BookState D) (page : Z) :
  page = currentPage s ->
  {| currentPage := page;
     totalPages := totalPages s;
     zoom := zoom s;
     sidebarOpen := sidebarOpen s;
     enhancementPanelOpen := enhancementPanelOpen s;
     enhancementPanelFullscreen := enhancementPanelFullscreen s;
     activeTab := activeTab s |} = s.
Proof. intros ->. now destruct s. Qed.

(** X15: while the page is in the book, the Next button is disabled
    exactly when [NEXT_PAGE] would change nothing, and the Previous
    button exactly when [PREV_PAGE] would change nothing; on any page but
    the last, Next then Previous comes back to the same state, and on any
    page but the first, so does Previous then Next. *)
Theorem navigation_buttons_match_reducer {D : Doubles} (s : BookState D) :
  1 <= currentPage s <= totalPages s ->
  (nextDisabled s = true <-> bookReducer s NEXT_PAGE = s) /\
  (prevDisabled s = true <-> bookReducer s PREV_PAGE = s) /\
  (nextDisabled s = false ->
   bookReducer (bookReducer s NEXT_PAGE) PREV_PAGE = s) /\
  (prevDisabled s = false ->
   bookReducer (bookReducer s PREV_PAGE) NEXT_PAGE = s).
Proof.
  intros Hs. unfold nextDisabled, prevDisabled.
  rewrite Z.geb_leb, !Z.leb_le, !Z.leb_gt.
  repeat split.
  - intros H. apply state_eq. lia.
  - intros H. apply (f_equal currentPage) in H. simpl in H. lia.
  - intros H. apply state_eq. lia.
  - intros H. apply (f_equal currentPage) in H. simpl in H. lia.
  - intros H. simpl. apply state_eq. lia.
  - intros H. simpl. apply state_eq. lia.
Qed.

Lemma navigation_buttons_match_reducer_witness :
  bookReducer
    (bookReducer (initialState exactDoubles) NEXT_PAGE) PREV_PAGE
  = initialState exactDoubles.
Proof.
  apply (navigation_buttons_match_reducer (initialState exactDoubles)).
  - simpl. lia.
  - reflexivity.
Defined.

(** X16: submitting the page form always closes and empties the input;
    it moves the book to the parsed number, exactly, when that is a page
    of the book, and otherwise ([NaN] or a number outside the book)
    leaves the book as it is: the clamp of the reducer never alters a
    submitted page. *)
Theorem submit_moves_only_to_pages_of_book {D : Doubles}
  (parsed : option Z) (book : BookState D) (nav : NavState) :
  snd (handleSubmit parsed book nav)
    = {| inputValue := ""; isEditing := false |} /\
  (forall page,
     parsed = Some page ->
     1 <= page <= totalPages book ->
     fst (handleSubmit parsed book nav)
       = {| currentPage := page;
            totalPages := totalPages book;
            zoom := zoom book;
            sidebarOpen := sidebarOpen book;
            enhancementPanelOpen := enhancementPanelOpen book;
            enhancementPanelFullscreen := enhancementPanelFullscreen book;
            activeTab := activeTab book |}) /\
  (forall page,
     parsed = Some page ->
     ~ (1 <= page <= totalPages book) ->
     fst (handleSubmit parsed book nav) = book) /\
  (parsed = None -> fst (handleSubmit parsed book nav) = book).
Proof.
  unfold handleSubmit. simpl. repeat split.
  - intros page -> Hpage.
    rewrite Z.geb_leb, (proj2 (Z.leb_le 1 page)),
      (proj2 (Z.leb_le page (totalPages book))) by lia.
    simpl. f_equal. lia.
  - intros page -> Hpage. rewrite Z.geb_leb.
    destruct (Z.leb_spec 1 page); destruct (Z.leb_spec page (totalPages book));
      simpl; try reflexivity. lia.
  - now intros ->.
Qed.

Lemma submit_moves_only_to_pages_of_book_witness :
  currentPage
    (fst (handleSubmit (Some 34) (initialState exactDoubles)
            {| inputValue := "34"; isEditing := true |})) = 34 /\
  fst (handleSubmit (Some 0) (initialState exactDoubles)
         {| inputValue := "0"; isEditing := true |})
    = initialState exactDoubles.
Proof.
  destruct (submit_moves_only_to_pages_of_book (Some 34)
              (initialState exactDoubles)
              {| inputValue := "34"; isEditing := true |})
    as [_ [Hin _]].
  destruct (submit_moves_only_to_pages_of_book (Some 0)
              (initialState exactDoubles)
              {| inputValue := "0"; isEditing := true |})
    as [_ [_ [Hout _]]].
  split.
  - rewrite (Hin 34 eq_refl); [reflexivity | simpl; lia].
  - apply (Hout 0 eq_refl). simpl. lia.
Defined.

End BookContextFacts.

(** * Results about the choice of simulator *)

Module SimulatorTabFacts.

Import BookStructure BookContext SimulatorTab BookStructureFacts.

Open Scope Z_scope.

Ltac mounted_eval :=
  match goal with
  | |- context [renderSimulator ?x] =>
      let v := eval vm_compute in (renderSimulator x) in
      change (renderSimulator x) with v
  end.

(** X17: which simulator the tab mounts is decided by the current page
    alone: the Morphism Composer on pages 33 to 35, the Functor Mapper on
    15 to 20, the naturality visualizer on 21 to 27, the product builder
    on 40 to 44, and under the diagram-chasing note on 45 to 60; on every
    other page, in the book or not, the Category Builder. *)
Theorem simulator_is_decided_by_page {D : Doubles} (book : BookState D) :
  let p := currentPage book in
  (mountedFor book = MorphismComposerView <-> 33 <= p <= 35) /\
  (mountedFor book = FunctorMapperView <-> 15 <= p <= 20) /\
  (mountedFor book = NaturalTransformationVisualizerView
   <-> 21 <= p <= 27) /\
  (mountedFor book = ProductBuilderView <-> 40 <= p <= 44) /\
  (mountedFor book = NoteAndProductBuilderView <-> 45 <= p <= 60) /\
  (mountedFor book = CategoryBuilderView
   <-> p < 15 \/ 28 <= p <= 32 \/ 36 <= p <= 39 \/ 60 < p).
Proof.
  unfold mountedFor, currentSection. generalize (currentPage book).
  intros p. cbv zeta.
  by_page_range p; book_eval; mounted_eval;
    (repeat split; intros; try lia; try congruence; try discriminate).
Qed.

End SimulatorTabFacts.

(** * Results about the hint panel *)

Module SimulatorHintFacts.

Import SimulatorHint.

Section HintFacts.

Variable Step : Type.
Variable props : Props Step.

Lemma stepInRange_handle (st : HintState) (e : Event) :
  stepInRange props st -> offered props e = true ->
  stepInRange props (handle props st e).
Proof.
  unfold stepInRange. intros [H0 Hn] He.
  destruct e as [| |idx| |]; simpl in *.
  - unfold nextStep.
    destruct (Z.ltb_spec (Z.of_nat (currentStep st)) (Z.of_nat (length (steps props)) - 1));
      simpl; lia.
  - unfold prevStep.
    destruct (Nat.ltb_spec 0 (currentStep st)); simpl; lia.
  - apply Nat.ltb_lt in He. lia.
  - lia.
  - lia.
Qed.

Lemma reachable_stepInRange (st : HintState) :
  reachableHint props st -> stepInRange props st.
Proof.
  induction 1 as [|st e _ IH He].
  - unfold stepInRange. simpl. lia.
  - now apply stepInRange_handle.
Qed.


Lemma hint_state_eq (st : HintState) (k : nat) :
  k = currentStep st ->
  {| isExpanded := isExpanded st; currentStep := k |} = st.
Proof. intros ->. now destruct st. Qed.

(** X19: in a reachable state of a hint with steps, Next is disabled
    exactly when [nextStep] changes nothing and Previous exactly when
    [prevStep] changes nothing; when Next is enabled, Next then Previous
    comes back to the same state, and when Previous is enabled so does
    Previous then Next. *)
Theorem hint_buttons_match_handlers (st : HintState) :
  reachableHint props st ->
  0 < length (steps props) ->
  let nextOff :=
    (Z.of_nat (currentStep st) =? Z.of_nat (length (steps props)) - 1)%Z in
  let prevOff := currentStep st =? 0 in
  (nextOff = true <-> nextStep props st = st) /\
  (prevOff = true <-> prevStep st = st) /\
  (nextOff = false -> prevStep (nextStep props st) = st) /\
  (prevOff = false -> nextStep props (prevStep st) = st).
Proof.
  intros Hreach Hpos.
  destruct (reachable_stepInRange st Hreach) as [_ Hn].
  specialize (Hn Hpos). cbv zeta.
  rewrite Z.eqb_eq, Z.eqb_neq, Nat.eqb_eq, Nat.eqb_neq.
  unfold nextStep, prevStep.
  destruct (Z.ltb_spec (Z.of_nat (currentStep st))
              (Z.of_nat (length (steps props)) - 1)) as [Hlt|Hge];
    destruct (Nat.ltb_spec 0 (currentStep st)) as [Hgt|Hle];
    simpl;
    repeat match goal with
           | |- context [0 <? ?k] =>
               first [ replace (0 <? k) with true
                         by (symmetry; apply Nat.ltb_lt; lia)
                     | replace (0 <? k) with false
                         by (symmetry; apply Nat.ltb_ge; lia) ]
           | |- context [(?a <? ?b)%Z] =>
               first [ replace (a <? b)%Z with true
                         by (symmetry; apply Z.ltb_lt; lia)
                     | replace (a <? b)%Z with false
                         by (symmetry; apply Z.ltb_ge; lia) ]
           end;
    simpl;
    repeat split; intros H;
    try reflexivity; try lia;
    try (apply (f_equal currentStep) in H; simpl in H; lia);
    try (apply hint_state_eq; lia).
Qed.

(** X20: pressing Next [k] times from the first render stops at the last
    step: the counter is the smaller of [k] and the index of the last
    step. *)
Theorem next_walks_to_last_step (k : nat) :
  0 < length (steps props) ->
  currentStep (Nat.iter k (nextStep props) (initialHint props))
    = Nat.min k (length (steps props) - 1).
Proof.
  intros Hpos.
  induction k as [|k IH].
  - reflexivity.
  - rewrite Nat.iter_succ. unfold nextStep at 1. rewrite IH.
    destruct (Z.ltb_spec
                (Z.of_nat (Nat.min k (length (steps props) - 1)))
                (Z.of_nat (length (steps props)) - 1)) as [Hlt|Hge];
      cbn [currentStep]; [|rewrite IH]; lia.
Qed.

End HintFacts.


Lemma hint_buttons_match_handlers_witness :
  prevStep (nextStep composerHintProps (initialHint composerHintProps))
  = initialHint composerHintProps.
Proof.
  apply (hint_buttons_match_handlers string composerHintProps
           (initialHint composerHintProps)).
  - apply hint_init.
  - simpl. lia.
  - reflexivity.
Defined.

Lemma next_walks_to_last_step_witness :
  currentStep
    (Nat.iter 9 (nextStep composerHintProps) (initialHint composerHintProps))
  = 3.
Proof.
  apply (next_walks_to_last_step string composerHintProps 9).
  simpl. lia.
Defined.

End SimulatorHintFacts.

(** * Results about the naturality visualizer *)

Module NaturalTransformationVisualizerFacts.

Import NaturalTransformationVisualizer.

Open Scope nat_scope.

(** Settles the comparisons of the goal by linear arithmetic. *)
Ltac leb_decide :=
  repeat match goal with
         | |- context [?a <=? ?b] =>
             first [ rewrite (proj2 (Nat.leb_le a b)) by lia
                   | rewrite (proj2 (Nat.leb_gt a b)) by lia ]
         end.

Lemma invariant_handle (s : State) (e : Event) :
  animationInvariant s -> animationInvariant (handle s e).
Proof.
  intros Hinv.
  destruct e as [|p|i| | |ms|]; unfold animationInvariant; simpl;
    try exact Hinv.
  - unfold handleAnimate.
    destruct Hinv as [[Hrest Hnone] | [Hrun Hex]].
    + rewrite Hrest. simpl. right. split; [reflexivity|].
      exists (clock s). split; [lia|]. right.
      rewrite Hnone. simpl. leb_decide. reflexivity.
    + rewrite Hrun. right. now split.
  - destruct Hinv as [Hrest | [Hrun [t0 [Ht0 Htimers]]]].
    + now left.
    + right. split; [assumption|]. exists t0. split; [lia | assumption].
  - destruct Hinv as [[Hrest Hnone] | [Hrun [t0 [Ht0 [Hone | Htwo]]]]].
    + rewrite Hnone. now left.
    + rewrite Hone.
      destruct (Nat.leb_spec (t0 + 2400) (clock s)); simpl.
      * now left.
      * right. rewrite Hrun, Hone. split; [reflexivity|].
        exists t0. auto.
    + rewrite Htwo.
      destruct (Nat.leb_spec (t0 + 1200) (clock s)); simpl.
      * right. split; [assumption|]. exists t0. auto.
      * right. rewrite Hrun, Htwo. split; [reflexivity|].
        exists t0. auto.
Qed.

Lemma reachable_animation_invariant (s : State) :
  reachable s -> animationInvariant s.
Proof.
  induction 1 as [|s e _ IH _].
  - left. split; reflexivity.
  - now apply invariant_handle.
Qed.

Lemma reachable_preset (s : State) :
  reachable s -> activePreset s < length presets.
Proof.
  induction 1 as [|s e _ IH He].
  - simpl. lia.
  - destruct e as [|p|i| | |ms|]; simpl in *; try assumption.
    + unfold handleAnimate. now destruct (animating s).
    + now apply Nat.ltb_lt in He.
    + destruct (timers s) as [|[due cb] rest]; [assumption|].
      destruct (due <=? clock s); [|assumption].
      now destruct cb.
Qed.

Lemma run_stays_reachable (events : list Event) :
  forall s,
    reachable s -> forallb offered events = true ->
    reachable (run s events).
Proof.
  unfold run. induction events as [|e events IH]; intros s Hs He; simpl in *.
  - exact Hs.
  - apply andb_true_iff in He. destruct He as [He Hrest].
    apply IH; [|exact Hrest]. now apply reach_step.
Qed.

(** X21: animations never overlap: in every reachable state the
    animation flag is set exactly while timers of the animation are
    pending, there are at most two of them, and a click on Animate while
    the flag is set changes nothing; the active preset always exists, so
    the render never reads a missing preset. *)
Theorem animations_never_overlap (s : State) :
  reachable s ->
  (animating s = true <-> timers s <> []) /\
  length (timers s) <= 2 /\
  (animateDisabled s = true -> handle s ClickAnimate = s) /\
  preset s <> None.
Proof.
  intros Hreach. pose proof (reachable_preset s Hreach) as Hpreset.
  destruct (reachable_animation_invariant s Hreach)
    as [[Hrest Hnone] | [Hrun [t0 [Ht0 [Hone | Htwo]]]]];
    (repeat split;
     [ rewrite ?Hrest, ?Hrun, ?Hnone, ?Hone, ?Htwo; congruence
     | rewrite ?Hrest, ?Hrun, ?Hnone, ?Hone, ?Htwo; congruence
     | rewrite ?Hnone, ?Hone, ?Htwo; simpl; lia
     | unfold animateDisabled; simpl; unfold handleAnimate;
       now intros ->
     | unfold preset; intros Habs; apply nth_error_None in Habs; lia ]).
Qed.

Lemma animations_never_overlap_witness :
  handle (handle initialState ClickAnimate) ClickAnimate
  = handle initialState ClickAnimate.
Proof.
  apply (animations_never_overlap (handle initialState ClickAnimate)).
  - apply reach_step; [apply reach_init | reflexivity].
  - reflexivity.
Defined.

(** X22: an animation always ends with both paths highlighted: from any
    reachable state, once 2400 ms have passed and the due timers have
    run, no timer is left and the animation flag is off; if an animation
    was running, both paths are highlighted and the COMMUTES badge is
    shown, whatever path was clicked in between; if none was running,
    the highlight is as it was. *)
Theorem animation_ends_with_both_paths (s : State) :
  reachable s ->
  let s' := run s [Elapse 2400; TimerFires; TimerFires] in
  animating s' = false /\
  timers s' = [] /\
  (animating s = true ->
   highlightPath s' = both /\ showsCommutes s' = true) /\
  (animating s = false -> highlightPath s' = highlightPath s).
Proof.
  intros Hreach. cbv zeta.
  destruct (reachable_animation_invariant s Hreach)
    as [[Hrest Hnone] | [Hrun [t0 [Ht0 [Hone | Htwo]]]]];
    unfold run; simpl;
    rewrite ?Hnone, ?Hone, ?Htwo; simpl; leb_decide; simpl;
    leb_decide; simpl;
    rewrite ?Hrest, ?Hrun; repeat split; congruence.
Qed.

Lemma animation_ends_with_both_paths_witness :
  highlightPath
    (run initialState
       [ClickAnimate; Elapse 1300; TimerFires; ClickPath top;
        Elapse 2400; TimerFires; TimerFires]) = both.
Proof.
  apply (animation_ends_with_both_paths
           (run initialState
              [ClickAnimate; Elapse 1300; TimerFires; ClickPath top])).
  - apply run_stays_reachable; [apply reach_init | reflexivity].
  - reflexivity.
Defined.

End NaturalTransformationVisualizerFacts.

(** * Results about the stored collections *)

Module LocalStorageFacts.

Import BookStructure LocalStorage BookStructureFacts.

Open Scope list_scope.

Section CollectionFacts.

Variable T : Type.
Variable eqb : T -> T -> bool.
Hypothesis eqb_eq : forall a b, eqb a b = true <-> a = b.

Lemma eqb_refl (a : T) : eqb a a = true.
Proof. now apply eqb_eq. Qed.

Lemma eqb_neq (a b : T) : eqb a b = false <-> a <> b.
Proof.
  rewrite <- eqb_eq. destruct (eqb a b); split; congruence.
Qed.

Lemma stored_includes_In (l : list T) (x : T) : includes eqb l x = true <-> In x l.
Proof.
  unfold includes. rewrite existsb_exists. split.
  - intros [i [Hi Heq]]. apply eqb_eq in Heq. now subst.
  - intros Hx. exists x. split; [assumption | apply eqb_refl].
Qed.

Lemma stored_includes_not_In (l : list T) (x : T) :
  includes eqb l x = false <-> ~ In x l.
Proof.
  rewrite <- stored_includes_In. destruct (includes eqb l x); split; congruence.
Qed.

Lemma In_add (l : list T) (x y : T) : In y (add eqb x l) <-> y = x \/ In y l.
Proof.
  unfold add. destruct (includes eqb l x) eqn:Hinc.
  - apply stored_includes_In in Hinc. split; [auto|]. intros [-> | H]; assumption.
  - rewrite in_app_iff. simpl. intuition.
Qed.

Lemma In_remove (l : list T) (x y : T) :
  In y (remove eqb x l) <-> y <> x /\ In y l.
Proof.
  unfold remove. rewrite filter_In, negb_true_iff, eqb_neq. tauto.
Qed.

Lemma NoDup_add (l : list T) (x : T) : NoDup l -> NoDup (add eqb x l).
Proof.
  intros Hl. unfold add. destruct (includes eqb l x) eqn:Hinc.
  - exact Hl.
  - apply stored_includes_not_In in Hinc.
    apply NoDup_app; [exact Hl | repeat constructor; intros [] |].
    intros y Hy [<- | []]. contradiction.
Qed.

Lemma NoDup_remove_item (l : list T) (x : T) :
  NoDup l -> NoDup (remove eqb x l).
Proof. intros Hl. now apply NoDup_filter. Qed.

Lemma remove_absent (l : list T) (x : T) : ~ In x l -> remove eqb x l = l.
Proof.
  unfold remove. induction l as [|y l IH]; simpl; intros Hx.
  - reflexivity.
  - replace (eqb y x) with false
      by (symmetry; apply eqb_neq; intros ->; apply Hx; now left).
    simpl. f_equal. apply IH. intros H. apply Hx. now right.
Qed.

Lemma toSet_from (l : list T) :
  forall acc,
    NoDup (acc ++ l) ->
    fold_left (fun set item => add eqb item set) l acc = acc ++ l.
Proof.
  induction l as [|x l IH]; intros acc Hnd; simpl.
  - now rewrite app_nil_r.
  - assert (Hx : ~ In x acc).
    { apply NoDup_remove_2 in Hnd. intros H. apply Hnd.
      apply in_app_iff. now left. }
    unfold add at 2. rewrite (proj2 (stored_includes_not_In acc x) Hx).
    rewrite IH; rewrite <- app_assoc; [reflexivity | exact Hnd].
Qed.


(** X24: an array built from the empty one by the callbacks of the hook
    never holds an item twice, so the [Set] made from it has exactly the
    items of the array, in the same order, and its size is the length of
    the array. *)
Theorem stored_set_has_no_duplicates (actions : list (SetAction T)) :
  let items := fold_left (applySet eqb) actions [] in
  NoDup items /\ toSet eqb items = items /\ size eqb items = length items.
Proof.
  cbv zeta.
  assert (Hnd : forall l,
             NoDup l -> NoDup (fold_left (applySet eqb) actions l)).
  { induction actions as [|[x|x|] actions IH]; intros l Hl; simpl.
    - exact Hl.
    - apply IH. now apply NoDup_add.
    - apply IH. now apply NoDup_remove_item.
    - apply IH. constructor. }
  specialize (Hnd [] (NoDup_nil T)).
  assert (Hset : forall l, NoDup l -> toSet eqb l = l).
  { intros l Hl. unfold toSet. now rewrite toSet_from. }
  split; [exact Hnd|]. split; [now apply Hset|].
  unfold size. now rewrite Hset.
Qed.

End CollectionFacts.


Lemma stored_set_has_no_duplicates_witness :
  size Z.eqb
    (fold_left (applySet Z.eqb)
       [AddItem 1%Z; AddItem 2%Z; AddItem 1%Z; RemoveItem 2%Z; AddItem 9%Z]
       [])
  = 2%nat.
Proof.
  rewrite (proj2 (proj2 (stored_set_has_no_duplicates Z Z.eqb Z.eqb_eq
     [AddItem 1%Z; AddItem 2%Z; AddItem 1%Z; RemoveItem 2%Z;
      AddItem 9%Z]))).
  reflexivity.
Defined.

(** ** Bookmarks *)

Lemma isBookmarked_In (bs : list Bookmark) (p : Z) :
  isBookmarked bs p = true <-> In p (map pageNumber bs).
Proof.
  unfold isBookmarked. rewrite existsb_exists, in_map_iff. split.
  - intros [b [Hb Heq]]. apply Z.eqb_eq in Heq. now exists b.
  - intros [b [Heq Hb]]. exists b. split; [assumption|].
    now apply Z.eqb_eq.
Qed.

Lemma isBookmarked_not_In (bs : list Bookmark) (p : Z) :
  isBookmarked bs p = false <-> ~ In p (map pageNumber bs).
Proof.
  rewrite <- isBookmarked_In. destruct (isBookmarked bs p); split; congruence.
Qed.

Lemma pages_addBookmark (now : string) (p : Z) (l : option string)
  (prev : list Bookmark) :
  map pageNumber (addBookmark now p l prev)
  = add Z.eqb p (map pageNumber prev).
Proof.
  unfold addBookmark, add. fold (isBookmarked prev p).
  destruct (isBookmarked prev p) eqn:Hb.
  - apply isBookmarked_In in Hb.
    now rewrite (proj2 (stored_includes_In Z Z.eqb Z.eqb_eq _ _) Hb).
  - apply isBookmarked_not_In in Hb.
    rewrite (proj2 (stored_includes_not_In Z Z.eqb Z.eqb_eq _ _) Hb).
    now rewrite map_app.
Qed.

Lemma pages_removeBookmark (p : Z) (prev : list Bookmark) :
  map pageNumber (removeBookmark p prev)
  = LocalStorage.remove Z.eqb p (map pageNumber prev).
Proof.
  unfold removeBookmark, LocalStorage.remove.
  induction prev as [|b prev IH]; simpl; [reflexivity|].
  destruct (pageNumber b =? p)%Z; simpl; now rewrite IH.
Qed.

(** X25: a page is bookmarked after [addBookmark] and not after
    [removeBookmark]; neither changes whether another page is
    bookmarked; and adding a bookmark for a page that has one changes
    nothing, so the first label and date are kept. *)
Theorem bookmark_laws (now : string) (p : Z) (l : option string)
  (prev : list Bookmark) :
  isBookmarked (addBookmark now p l prev) p = true /\
  isBookmarked (removeBookmark p prev) p = false /\
  (forall q, q <> p ->
     isBookmarked (addBookmark now p l prev) q = isBookmarked prev q /\
     isBookmarked (removeBookmark p prev) q = isBookmarked prev q) /\
  (isBookmarked prev p = true -> addBookmark now p l prev = prev).
Proof.
  assert (Hadd : forall q,
             In q (map pageNumber (addBookmark now p l prev))
             <-> q = p \/ In q (map pageNumber prev)).
  { intros q. rewrite pages_addBookmark. now apply In_add, Z.eqb_eq. }
  assert (Hrem : forall q,
             In q (map pageNumber (removeBookmark p prev))
             <-> q <> p /\ In q (map pageNumber prev)).
  { intros q. rewrite pages_removeBookmark. now apply In_remove, Z.eqb_eq. }
  split; [apply isBookmarked_In, Hadd; now left|].
  split; [apply isBookmarked_not_In; rewrite Hrem; tauto|].
  split.
  - intros q Hq. split.
    + destruct (isBookmarked prev q) eqn:Hb.
      * apply isBookmarked_In, Hadd. right. now apply isBookmarked_In.
      * apply isBookmarked_not_In. rewrite Hadd.
        apply isBookmarked_not_In in Hb. tauto.
    + destruct (isBookmarked prev q) eqn:Hb.
      * apply isBookmarked_In, Hrem. split; [assumption|].
        now apply isBookmarked_In.
      * apply isBookmarked_not_In. rewrite Hrem.
        apply isBookmarked_not_In in Hb. tauto.
  - intros Hb. unfold addBookmark. fold (isBookmarked prev p).
    now rewrite Hb.
Qed.

(** X26: bookmarks built from the empty list by adding, removing and
    clearing hold at most one bookmark per page. *)
Theorem one_bookmark_per_page (actions : list BookmarkAction) :
  NoDup (map pageNumber (fold_left applyBookmark actions [])).
Proof.
  assert (Hnd : forall bs,
             NoDup (map pageNumber bs) ->
             NoDup (map pageNumber (fold_left applyBookmark actions bs))).
  { induction actions as [|[now p l|p|] actions IH]; intros bs Hbs; simpl.
    - exact Hbs.
    - apply IH. rewrite pages_addBookmark.
      now apply NoDup_add; [exact Z.eqb_eq|].
    - apply IH. rewrite pages_removeBookmark.
      now apply NoDup_remove_item.
    - apply IH. constructor. }
  apply Hnd. constructor.
Qed.

(** ** Notes *)

Lemma updateNoteFrom_map {A : Type} (proj : Note -> A)
  (now : nat -> string) (noteId text : string) :
  (forall note stamp,
     proj {| id := id note; notePage := notePage note; content := text;
             noteCreatedAt := noteCreatedAt note; updatedAt := stamp |}
     = proj note) ->
  forall prev k,
    map proj (updateNoteFrom k now noteId text prev) = map proj prev.
Proof.
  intros Hproj. induction prev as [|note prev IH]; intros k; simpl.
  - reflexivity.
  - rewrite IH. f_equal.
    destruct (id note =? noteId)%string; [apply Hproj | reflexivity].
Qed.

(** X27: [updateNote] keeps the number of notes, their order, their
    ids, pages and creation dates; it leaves every note with another id
    untouched, and when no note has the id it changes nothing. *)
Theorem updateNote_keeps_other_fields (now : nat -> string)
  (noteId text : string) (prev : list Note) :
  length (updateNote now noteId text prev) = length prev /\
  map id (updateNote now noteId text prev) = map id prev /\
  map notePage (updateNote now noteId text prev) = map notePage prev /\
  map noteCreatedAt (updateNote now noteId text prev)
    = map noteCreatedAt prev /\
  (forall k note,
     nth_error prev k = Some note ->
     id note <> noteId ->
     nth_error (updateNote now noteId text prev) k = Some note) /\
  (forall k note,
     nth_error prev k = Some note ->
     id note = noteId ->
     option_map content (nth_error (updateNote now noteId text prev) k)
       = Some text) /\
  (~ In noteId (map id prev) -> updateNote now noteId text prev = prev).
Proof.
  unfold updateNote.
  assert (Hid : map id (updateNoteFrom 0 now noteId text prev) = map id prev)
    by (now apply updateNoteFrom_map).
  split; [|split; [exact Hid|]].
  { rewrite <- (length_map id), Hid. apply length_map. }
  split; [now apply updateNoteFrom_map|].
  split; [now apply updateNoteFrom_map|].
  generalize 0%nat as base. clear Hid. repeat split.
  - revert base. induction prev as [|n prev IH]; intros base k note Hk Hne.
    + now destruct k.
    + destruct k as [|k]; simpl in *.
      * injection Hk as ->.
        now rewrite (proj2 (String.eqb_neq _ _) Hne).
      * now apply IH.
  - revert base. induction prev as [|n prev IH]; intros base k note Hk He.
    + now destruct k.
    + destruct k as [|k]; simpl in *.
      * injection Hk as ->.
        now rewrite (proj2 (String.eqb_eq _ _) He).
      * now apply (IH (S base) k note).
  - revert base. induction prev as [|n prev IH]; intros base Hnot; simpl.
    + reflexivity.
    + simpl in Hnot.
      rewrite (proj2 (String.eqb_neq (id n) noteId)) by tauto.
      f_equal. apply IH. tauto.
Qed.

Lemma noteId_inj (ms1 ms2 : Z) : noteId ms1 = noteId ms2 -> ms1 = ms2.
Proof.
  unfold noteId. intros H. apply append_inj_left in H.
  pose proof (readPage_pageString ms1) as H1.
  rewrite H, readPage_pageString in H1. congruence.
Qed.

Lemma deleteNote_absent (i : string) (prev : list Note) :
  ~ In i (map id prev) -> deleteNote i prev = prev.
Proof.
  unfold deleteNote. induction prev as [|n prev IH]; simpl; intros Hnot.
  - reflexivity.
  - rewrite (proj2 (String.eqb_neq (id n) i)) by tauto.
    simpl. f_equal. apply IH. tauto.
Qed.

(** X28: two notes get the same id exactly when they are added in the
    same millisecond; [deleteNote] removes every note with the id and no
    other, so it removes both notes of one millisecond at once, and with
    an id that no note has it changes nothing. *)
Theorem notes_of_one_millisecond_share_an_id
  (ms1 ms2 : Z) (now1 now2 text1 text2 : string) (p1 p2 : Z)
  (prev : list Note) :
  Z.abs ms1 < 10 ^ 21 ->
  Z.abs ms2 < 10 ^ 21 ->
  (noteId ms1 = noteId ms2 <-> ms1 = ms2) /\
  (forall i note,
     In note (deleteNote i prev) <-> In note prev /\ id note <> i) /\
  (forall i, ~ In i (map id prev) -> deleteNote i prev = prev) /\
  (ms1 = ms2 ->
   deleteNote (noteId ms1)
     (addNote ms2 now2 p2 text2 (addNote ms1 now1 p1 text1 prev))
   = deleteNote (noteId ms1) prev).
Proof.
  intros _ _.
  split; [split; [apply noteId_inj | now intros ->]|].
  split.
  { intros i note. unfold deleteNote.
    rewrite filter_In, negb_true_iff, String.eqb_neq. tauto. }
  split; [intros i; apply deleteNote_absent|].
  intros <-. unfold deleteNote, addNote.
  rewrite !filter_app. simpl. rewrite String.eqb_refl. simpl.
  now rewrite !app_nil_r.
Qed.

Lemma bookmark_laws_witness :
  addBookmark "2024-01-02" 7 (Some "again")
    (addBookmark "2024-01-01" 7 None [])
  = addBookmark "2024-01-01" 7 None [].
Proof.
  apply (bookmark_laws "2024-01-02" 7 (Some "again"%string)
           (addBookmark "2024-01-01" 7 None [])).
  reflexivity.
Defined.

Lemma updateNote_keeps_other_fields_witness :
  updateNote (fun _ => "2024-01-03"%string) "note-5" "new text"
    (addNote 1700000000000 "2024-01-01" 12 "first" [])
  = addNote 1700000000000 "2024-01-01" 12 "first" [].
Proof.
  apply (updateNote_keeps_other_fields (fun _ => "2024-01-03"%string)
           "note-5" "new text"
           (addNote 1700000000000 "2024-01-01" 12 "first" [])).
  simpl. intuition discriminate.
Defined.

Lemma notes_of_one_millisecond_share_an_id_witness :
  deleteNote (noteId 1700000000000)
    (addNote 1700000000000 "t2" 13 "second"
       (addNote 1700000000000 "t1" 12 "first" []))
  = deleteNote (noteId 1700000000000) [].
Proof.
  apply (notes_of_one_millisecond_share_an_id
           1700000000000 1700000000000 "t1" "t2" "first" "second" 12 13 []).
  - reflexivity.
  - reflexivity.
  - reflexivity.
Defined.

End LocalStorageFacts.

(** * Results about the reading progress *)

Module ProgressContextFacts.

Import BookStructure BookContext LocalStorage ProgressContext.
Import BookContextFacts LocalStorageFacts.

Open Scope Z_scope.

(** A list without repetition of numbers between 1 and [n] has at most
    [n] elements. *)
Lemma distinct_pages_bound (l : list Z) (n : Z) :
  NoDup l -> (forall p, In p l -> 1 <= p <= n) ->
  (length l <= Z.to_nat n)%nat.
Proof.
  intros Hnd Hrange.
  rewrite <- (length_seq (Z.to_nat n) 1).
  rewrite <- (length_map Z.of_nat).
  apply NoDup_incl_length; [exact Hnd|].
  intros p Hp. specialize (Hrange p Hp).
  apply in_map_iff. exists (Z.to_nat p). split; [lia|].
  apply in_seq. lia.
Qed.

Lemma invariant_markCurrent {D : Doubles} (book : BookState D)
  (p : Progress) :
  progressInvariant (book, p) ->
  progressInvariant (book, markCurrent (currentPage book) p).
Proof.
  unfold progressInvariant. simpl. intros [Hpage [Hnd Hrange]].
  split; [exact Hpage|]. split.
  - now apply NoDup_add; [exact Z.eqb_eq|].
  - intros q Hq. apply In_add in Hq; [|exact Z.eqb_eq].
    destruct Hq as [-> | Hq]; [exact Hpage | now apply Hrange].
Qed.

Lemma invariant_appStep {D : Doubles} (app : BookState D * Progress)
  (e : AppEvent D) :
  progressInvariant app -> progressInvariant (appStep app e).
Proof.
  destruct app as [book p]. intros Hinv.
  destruct e as [action|]; simpl.
  - assert (Hmoved : progressInvariant (bookReducer book action, p)).
    { destruct Hinv as [Hpage [Hnd Hrange]]. unfold progressInvariant.
      simpl in *. rewrite reducer_keeps_total.
      split; [now apply reducer_keeps_page_in_range|].
      split; assumption. }
    destruct (currentPage (bookReducer book action) =? currentPage book);
      [exact Hmoved | now apply invariant_markCurrent].
  - destruct Hinv as [Hpage _]. unfold progressInvariant. simpl.
    split; [exact Hpage|]. split; [constructor | intros q []].
Qed.

Lemma invariant_appRun {D : Doubles} (events : list (AppEvent D)) :
  forall app, progressInvariant app -> progressInvariant (appRun app events).
Proof.
  unfold appRun. induction events as [|e events IH]; intros app Happ; simpl.
  - exact Happ.
  - apply IH. now apply invariant_appStep.
Qed.

Lemma tracked_appRun {D : Doubles} (events : list (AppEvent D)) :
  forall app,
    forallb isDispatch events = true ->
    In (currentPage (fst app)) (viewedItems (snd app)) /\
    lastPage (snd app) = currentPage (fst app) ->
    In (currentPage (fst (appRun app events)))
       (viewedItems (snd (appRun app events))) /\
    lastPage (snd (appRun app events)) = currentPage (fst (appRun app events)).
Proof.
  unfold appRun. induction events as [|e events IH]; intros app He Happ;
    simpl in *.
  - exact Happ.
  - apply andb_true_iff in He. destruct He as [He Hrest].
    apply IH; [exact Hrest|].
    destruct e as [action|]; [|discriminate He].
    destruct app as [book p]. simpl in *.
    destruct (Z.eqb_spec (currentPage (bookReducer book action))
                (currentPage book)) as [Hsame|Hmoved]; simpl.
    + now rewrite Hsame.
    + split; [|reflexivity]. apply In_add; [exact Z.eqb_eq|]. now left.
Qed.



End ProgressContextFacts.

